(** * Griddo: the Super Bowl score-processing pipeline

    A shallow embedding of the edge function that polls the score feed,
    resolves the quarters to process, computes the winning square of a
    contest and records the result with its two notification flags
    ([processQuarter], [quartersToProcess], the contest loop of [serve]),
    together with the winner selection of the manual score-entry action
    ([saveScores]).

    Conventions of the embedding:
    - integer columns and scores are [Z]; [%] on them is the truncated
      remainder [Z.rem], as in JavaScript;
    - money ([square_price], [prize_amount]) is a JavaScript number: an
      IEEE 754 binary64 double, with the multiplication, division and
      addition of the Standard Library's [SpecFloat] at precision 53, each
      result rounded to nearest, ties to even; a row holds the number the
      code handed to the store, the store's own rounding of a numeric
      column to its scale is outside the model;
    - a nullable column is an [option]; the truthiness tests of the source
      ([x || null], [if (x)]) are written out on strings, numbers and
      booleans;
    - the relational store is a record of tables, each a list of rows; every
      write and every transport call is also appended to an effect journal;
    - what the outside world answers to one call (store errors the code
      inspects, the owner's identity, whether the transport accepted a
      message, the clock) is an explicit [Env] argument. *)

From Stdlib Require Import ZArith QArith List String Bool Lia.
From Stdlib Require Import Ascii Permutation SpecFloat.
Import ListNotations.
Local Open Scope string_scope.
Local Open Scope Z_scope.

Set Implicit Arguments.

(** ** JavaScript helpers *)

Module JS.

(** Truthiness of a nullable string: [null], [undefined] and the empty
    string are falsy. *)
Definition truthy (o : option string) : bool :=
  match o with
  | Some s => negb (String.eqb s EmptyString)
  | None => false
  end.

(** [x || null] on a nullable string. *)
Definition or_null (o : option string) : option string :=
  if truthy o then o else None.

(** [x || d] on a nullable string. *)
Definition or_else (o : option string) (d : string) : string :=
  match o with
  | Some s => if String.eqb s EmptyString then d else s
  | None => d
  end.

(** The string of a nullable value, used where the code has checked that
    it is present. *)
Definition get (o : option string) : string :=
  match o with
  | Some s => s
  | None => EmptyString
  end.

(** [x || 0] on a nullable integer. *)
Definition or_zero (o : option Z) : Z :=
  match o with
  | Some v => v
  | None => 0
  end.

(** [Array.prototype.indexOf] on an array of integers: the first position
    holding the value, [-1] when there is none. *)
Fixpoint indexOf_from (l : list Z) (x : Z) (i : Z) : Z :=
  match l with
  | [] => -1
  | y :: t => if y =? x then i else indexOf_from t x (i + 1)
  end.

Definition indexOf (l : list Z) (x : Z) : Z := indexOf_from l x 0.

(** [arr?.indexOf(x) ?? -1] on a nullable array. *)
Definition indexOf_opt (l : option (list Z)) (x : Z) : Z :=
  match l with
  | Some a => indexOf a x
  | None => -1
  end.

(** [.single()] of the store client: the row when the selection holds
    exactly one, otherwise no data. *)
Definition single {A : Type} (l : list A) : option A :=
  match l with
  | [x] => Some x
  | _ => None
  end.

End JS.

(** ** JavaScript numbers that are not integers of the model *)

Module Double.

Definition t : Type := spec_float.

(** An integer as a number: exact below 2^53 in absolute value. *)
Definition of_Z (z : Z) : t := binary_normalize 53 1024 z 0 false.

(** [x * y], [x / y] and [x + y]. *)
Definition mul (x y : t) : t := SFmul 53 1024 x y.

Definition div (x y : t) : t := SFdiv 53 1024 x y.

Definition add (x y : t) : t := SFadd 53 1024 x y.

(** The double of a positive integer below 2^53, written out: the
    integer shifted up to 53 bits, with the exponent that undoes the shift. *)
Definition canon (s : bool) (n : Z) : t :=
  S754_finite s (Z.to_pos (n * 2 ^ (52 - Z.log2 n))) (Z.log2 n - 52).

(** The number a decimal [n / d] denotes, as JSON parsing gives it: the
    double nearest to the quotient ([n] and [d] below 2^53). *)
Definition decimal (n d : Z) : t := div (of_Z n) (of_Z d).

(** [x || 0] on a number: zero, minus zero and NaN are falsy. *)
Definition or_zero (x : t) : t :=
  match x with
  | S754_zero _ | S754_nan => of_Z 0
  | _ => x
  end.


(** The rational a finite number is, [None] for the infinities and NaN. *)
Definition to_Q (x : t) : option Q :=
  match x with
  | S754_zero _ => Some 0%Q
  | S754_finite s m e =>
      Some (inject_Z (if s then Zneg m else Zpos m) * Qpower 2 e)%Q
  | _ => None
  end.

End Double.

(** ** Rows *)

Module ContestRow.
Record t : Type := mk {
  id : string;
  name : string;
  slug : string;
  owner_id : string;
  row_team_name : string;
  col_team_name : string;
  row_numbers : option (list Z);
  col_numbers : option (list Z);
  square_price : Double.t;
  payout_q1_percent : option Z;
  payout_q2_percent : option Z;
  payout_q3_percent : option Z;
  payout_final_percent : option Z;
  status : string
}.
End ContestRow.

Module SquareRow.
Record t : Type := mk {
  id : string;
  contest_id : string;
  row_index : Z;
  col_index : Z;
  claimant_first_name : option string;
  claimant_last_name : option string;
  claimant_email : option string;
  claimant_venmo : option string
}.
End SquareRow.

Module QuarterResult.
(** The record built by [processQuarter] and handed to the upsert. *)
Record t : Type := mk {
  contest_id : string;
  quarter : string;
  home_score : Z;
  away_score : Z;
  home_last_digit : Z;
  away_last_digit : Z;
  winning_square_id : option string;
  winner_first_name : option string;
  winner_last_name : option string;
  winner_email : option string;
  winner_venmo : option string;
  prize_amount : Double.t;
  payout_percent : Z;
  winner_email_sent : bool;
  owner_email_sent : bool
}.

(** A row of [super_bowl_quarter_results]: the columns above and the two
    timestamps, which the upsert never carries. *)
Record row : Type := mkrow {
  columns : t;
  winner_email_sent_at : option Z;
  owner_email_sent_at : option Z
}.
End QuarterResult.

Module ScoreRow.
Record t : Type := mk {
  contest_id : string;
  quarter : string;
  home_score : Z;
  away_score : Z;
  winning_square_id : option string;
  entered_at : Z
}.
End ScoreRow.

(** ** Constants *)

Definition PERIOD_TO_QUARTER (p : Z) : option string :=
  if p =? 1 then Some "q1"
  else if p =? 2 then Some "q2"
  else if p =? 3 then Some "q3"
  else if p =? 4 then Some "final"
  else None.

Definition QUARTER_DISPLAY (q : string) : option string :=
  if String.eqb q "q1" then Some "Q1"
  else if String.eqb q "q2" then Some "Halftime"
  else if String.eqb q "q3" then Some "Q3"
  else if String.eqb q "final" then Some "Final"
  else None.

(** ** Helpers of the edge function *)

Definition buildWinnerName (firstName lastName : option string) : string :=
  if negb (JS.truthy firstName) then "Unclaimed Square"
  else if JS.truthy lastName
       then JS.get firstName ++ " " ++ JS.get lastName
       else JS.get firstName.

(** [contest[`payout_${quarter}_percent`]]: the column of that name, and
    [undefined] for any other quarter string. *)
Definition payout_column (contest : ContestRow.t) (quarter : string) : option Z :=
  if String.eqb quarter "q1" then ContestRow.payout_q1_percent contest
  else if String.eqb quarter "q2" then ContestRow.payout_q2_percent contest
  else if String.eqb quarter "q3" then ContestRow.payout_q3_percent contest
  else if String.eqb quarter "final" then ContestRow.payout_final_percent contest
  else None.

Definition getPayoutPercent (contest : ContestRow.t) (quarter : string) : Z :=
  JS.or_zero (payout_column contest quarter).

Definition getPrizeAmount (contest : ContestRow.t) (quarter : string)
    : Double.t :=
  let percent := getPayoutPercent contest quarter in
  let totalPot := Double.mul (ContestRow.square_price contest) (Double.of_Z 100) in
  Double.div (Double.mul totalPot (Double.of_Z percent)) (Double.of_Z 100).

(** ** Winner selection *)

Record Selection : Type := mkSelection {
  winningRowIndex : Z;
  winningColIndex : Z;
  winningSquare : option SquareRow.t
}.

Definition lastDigit (score : Z) : Z := Z.rem score 10.

Definition square_at (r c : Z) (sq : SquareRow.t) : bool :=
  (SquareRow.row_index sq =? r) && (SquareRow.col_index sq =? c).

(** [winningSquare?.id || null]. *)
Definition square_id_or_null (sq : option SquareRow.t) : option string :=
  match sq with
  | Some s => JS.or_null (Some (SquareRow.id s))
  | None => None
  end.

(** [winningSquare?.f || null] for a nullable claimant field [f]. *)
Definition claimant_or_null (f : SquareRow.t -> option string)
    (sq : option SquareRow.t) : option string :=
  match sq with
  | Some s => JS.or_null (f s)
  | None => None
  end.

(** The selection of [processQuarter] (edge function). *)
Definition processQuarter_select (row_numbers col_numbers : option (list Z))
    (squares : list SquareRow.t) (homeScore awayScore : Z) : Selection :=
  let homeLastDigit := lastDigit homeScore in
  let awayLastDigit := lastDigit awayScore in
  let winningRowIndex := JS.indexOf_opt row_numbers homeLastDigit in
  let winningColIndex := JS.indexOf_opt col_numbers awayLastDigit in
  let winningSquare :=
    if negb (winningRowIndex =? -1) && negb (winningColIndex =? -1)
    then find (square_at winningRowIndex winningColIndex) squares
    else None in
  mkSelection winningRowIndex winningColIndex winningSquare.

(** The selection of [saveScores] (manual score entry) for one score, past
    its guard on the two assignments. *)
Definition saveScores_select (row_numbers col_numbers : list Z)
    (squares : list SquareRow.t) (homeScore awayScore : Z) : Selection :=
  let homeLastDigit := Z.rem homeScore 10 in
  let awayLastDigit := Z.rem awayScore 10 in
  let winningRowIndex := JS.indexOf row_numbers homeLastDigit in
  let winningColIndex := JS.indexOf col_numbers awayLastDigit in
  let winningSquare :=
    if negb (winningRowIndex =? -1) && negb (winningColIndex =? -1)
    then find (square_at winningRowIndex winningColIndex) squares
    else None in
  mkSelection winningRowIndex winningColIndex winningSquare.

(** ** The store, the transport and the journal of effects *)

Inductive EmailKind : Type :=
| WinnerNotification
| OwnerQuarter
| FinalSummary.

(** The structured data of one message; the HTML rendering is not modelled. *)
Record Email : Type := mkEmail {
  kind : EmailKind;
  to : string;
  recipientName : string;
  contestName : string;
  quarterName : string;
  homeScore : Z;
  awayScore : Z;
  winnerName : string;
  prizeAmount : Double.t
}.

Record LogEntry : Type := mkLog {
  action : string;
  log_status : string;
  log_contestId : option string;
  log_quarter : option string;
  error_message : option string
}.

Inductive Effect : Type :=
| UpsertResult (r : QuarterResult.t)
| UpsertScore (s : ScoreRow.t)
| SendEmail (m : Email) (accepted : bool)
| UpdateEmailFlags (contest_id quarter : string) (winner_sent owner_sent : bool)
| UpdateContestStatus (contest_id new_status : string)
| UpdateConfigGameFinished
| InsertLog (entry : LogEntry).

Record World : Type := mkWorld {
  squares : list SquareRow.t;
  quarter_results : list QuarterResult.row;
  scores : list ScoreRow.t;
  journal : list Effect
}.

(** The user [auth.admin.getUserById] returns: the address and the two names
    of its metadata. *)
Record AuthUser : Type := mkAuthUser {
  email : option string;
  full_name : option string;
  user_name : option string
}.

(** What the outside answers during one call of [processQuarter]: the error
    of the squares query and of the upsert (the two the code inspects), the
    owner's identity, whether the transport accepted each message, the clock.
    A write whose outcome the code does not inspect is taken as applied. *)
Record Env : Type := mkEnv {
  squares_error : option string;
  upsert_error : option string;
  owner : option AuthUser;
  winner_accepted : bool;
  owner_accepted : bool;
  now : Z
}.

(** The [{ data, error }] pair of a store query. *)
Record Fetch (A : Type) : Type := mkFetch {
  data : option A;
  error : option string
}.

Record ProcessResult : Type := mkProcessResult {
  processed : bool;
  process_error : option string
}.

(** *** Table operations *)

Definition key_matches (contest_id quarter : string) (r : QuarterResult.row) : bool :=
  String.eqb (QuarterResult.contest_id (QuarterResult.columns r)) contest_id
  && String.eqb (QuarterResult.quarter (QuarterResult.columns r)) quarter.

(** [.select(...).eq('contest_id', c).eq('quarter', q)]. *)
Definition select_results (w : World) (contest_id quarter : string)
    : list QuarterResult.row :=
  filter (key_matches contest_id quarter) (quarter_results w).

Definition select_existing (w : World) (contest_id quarter : string)
    : option QuarterResult.row :=
  JS.single (select_results w contest_id quarter).

(** [existing?.flag], read as a condition. *)
Definition existing_flag (flag : QuarterResult.t -> bool)
    (existing : option QuarterResult.row) : bool :=
  match existing with
  | Some r => flag (QuarterResult.columns r)
  | None => false
  end.

Definition fetch_squares (env : Env) (w : World) (contest_id : string)
    : Fetch (list SquareRow.t) :=
  match squares_error env with
  | Some msg => mkFetch None (Some msg)
  | None =>
      mkFetch
        (Some (filter (fun sq => String.eqb (SquareRow.contest_id sq) contest_id)
                 (squares w)))
        None
  end.

(** [.upsert(result, { onConflict: 'contest_id,quarter' })]: a conflicting
    row takes the columns of [result] and keeps its timestamps; without a
    conflict a row is inserted, its timestamps null. *)
Definition upsert_rows (rows : list QuarterResult.row) (result : QuarterResult.t)
    : list QuarterResult.row :=
  let hit := key_matches (QuarterResult.contest_id result)
                         (QuarterResult.quarter result) in
  if existsb hit rows
  then map (fun r =>
              if hit r
              then QuarterResult.mkrow result
                     (QuarterResult.winner_email_sent_at r)
                     (QuarterResult.owner_email_sent_at r)
              else r) rows
  else rows ++ [QuarterResult.mkrow result None None].

Definition upsert_result (w : World) (result : QuarterResult.t) : World :=
  mkWorld (squares w) (upsert_rows (quarter_results w) result) (scores w)
          (journal w ++ [UpsertResult result]).

Definition score_key_matches (contest_id quarter : string) (s : ScoreRow.t) : bool :=
  String.eqb (ScoreRow.contest_id s) contest_id
  && String.eqb (ScoreRow.quarter s) quarter.

Definition upsert_score_rows (rows : list ScoreRow.t) (s : ScoreRow.t)
    : list ScoreRow.t :=
  let hit := score_key_matches (ScoreRow.contest_id s) (ScoreRow.quarter s) in
  if existsb hit rows
  then map (fun r => if hit r then s else r) rows
  else rows ++ [s].

Definition upsert_score (w : World) (s : ScoreRow.t) : World :=
  mkWorld (squares w) (quarter_results w) (upsert_score_rows (scores w) s)
          (journal w ++ [UpsertScore s]).

Definition send_email (w : World) (m : Email) (accepted : bool) : World :=
  mkWorld (squares w) (quarter_results w) (scores w)
          (journal w ++ [SendEmail m accepted]).

Definition set_flags (winner_sent owner_sent : bool) (at_ : Z)
    (r : QuarterResult.row) : QuarterResult.row :=
  let c := QuarterResult.columns r in
  QuarterResult.mkrow
    (QuarterResult.mk
       (QuarterResult.contest_id c) (QuarterResult.quarter c)
       (QuarterResult.home_score c) (QuarterResult.away_score c)
       (QuarterResult.home_last_digit c) (QuarterResult.away_last_digit c)
       (QuarterResult.winning_square_id c)
       (QuarterResult.winner_first_name c) (QuarterResult.winner_last_name c)
       (QuarterResult.winner_email c) (QuarterResult.winner_venmo c)
       (QuarterResult.prize_amount c) (QuarterResult.payout_percent c)
       winner_sent owner_sent)
    (if winner_sent then Some at_ else None)
    (if owner_sent then Some at_ else None).

(** [.update({ flags, timestamps }).eq('contest_id', c).eq('quarter', q)]. *)
Definition update_rows (rows : list QuarterResult.row) (contest_id quarter : string)
    (winner_sent owner_sent : bool) (at_ : Z) : list QuarterResult.row :=
  map (fun r => if key_matches contest_id quarter r
                then set_flags winner_sent owner_sent at_ r else r) rows.

Definition update_email_flags (w : World) (contest_id quarter : string)
    (winner_sent owner_sent : bool) (at_ : Z) : World :=
  mkWorld (squares w)
          (update_rows (quarter_results w) contest_id quarter winner_sent owner_sent at_)
          (scores w)
          (journal w ++ [UpdateEmailFlags contest_id quarter winner_sent owner_sent]).

Definition insert_log (w : World) (entry : LogEntry) : World :=
  mkWorld (squares w) (quarter_results w) (scores w)
          (journal w ++ [InsertLog entry]).

(** ** processQuarter *)

(** The data handed to [generateWinnerNotificationEmail] and the address it
    is sent to. *)
Definition winnerTemplate (contest : ContestRow.t) (quarterName : string)
    (homeScore awayScore : Z) (prizeAmount : Double.t)
    (winningSquare : option SquareRow.t) : Email :=
  mkEmail WinnerNotification
    (JS.get (claimant_or_null SquareRow.claimant_email winningSquare))
    (JS.or_else (claimant_or_null SquareRow.claimant_first_name winningSquare) "Winner")
    (ContestRow.name contest) quarterName homeScore awayScore
    (JS.or_else (claimant_or_null SquareRow.claimant_first_name winningSquare) "Winner")
    prizeAmount.

Definition ownerEmail (user : option AuthUser) : option string :=
  match user with
  | Some u => email u
  | None => None
  end.

Definition ownerName (user : option AuthUser) : string :=
  match user with
  | Some u => if JS.truthy (full_name u) then JS.get (full_name u)
              else JS.or_else (user_name u) "Contest Owner"
  | None => "Contest Owner"
  end.

(** The data handed to [generateOwnerQuarterEmail] and the address it is
    sent to. *)
Definition ownerTemplate (user : option AuthUser) (contest : ContestRow.t)
    (quarterName : string) (homeScore awayScore : Z) (prizeAmount : Double.t)
    (winningSquare : option SquareRow.t) : Email :=
  mkEmail OwnerQuarter (JS.get (ownerEmail user)) (ownerName user)
    (ContestRow.name contest) quarterName homeScore awayScore
    (buildWinnerName
       (claimant_or_null SquareRow.claimant_first_name winningSquare)
       (claimant_or_null SquareRow.claimant_last_name winningSquare))
    prizeAmount.

(** "Send winner email": the new value of [winnerEmailSent] and the world
    after the step. *)
Definition winner_step (env : Env) (w : World) (contest : ContestRow.t)
    (quarterName : string) (homeScore awayScore : Z) (prizeAmount : Double.t)
    (existing : option QuarterResult.row) (winningSquare : option SquareRow.t)
    : bool * World :=
  let needWinnerEmail := negb (existing_flag QuarterResult.winner_email_sent existing) in
  let winnerEmailSent := existing_flag QuarterResult.winner_email_sent existing in
  let claimant_email := claimant_or_null SquareRow.claimant_email winningSquare in
  if needWinnerEmail && JS.truthy claimant_email
  then
    (winner_accepted env,
     send_email w
       (winnerTemplate contest quarterName homeScore awayScore prizeAmount
          winningSquare)
       (winner_accepted env))
  else if negb (JS.truthy claimant_email)
  then (true, w)
  else (winnerEmailSent, w).

(** "Send owner email": the new value of [ownerEmailSent] and the world
    after the step. *)
Definition owner_step (env : Env) (w : World) (contest : ContestRow.t)
    (quarterName : string) (homeScore awayScore : Z) (prizeAmount : Double.t)
    (existing : option QuarterResult.row) (winningSquare : option SquareRow.t)
    : bool * World :=
  let needOwnerEmail := negb (existing_flag QuarterResult.owner_email_sent existing) in
  let ownerEmailSent := existing_flag QuarterResult.owner_email_sent existing in
  if needOwnerEmail
  then
    if JS.truthy (ownerEmail (owner env))
    then
      (owner_accepted env,
       send_email w
         (ownerTemplate (owner env) contest quarterName homeScore awayScore
            prizeAmount winningSquare)
         (owner_accepted env))
    else (ownerEmailSent, w)
  else (ownerEmailSent, w).

(** The record of "Build result record": both flags start out false. *)
Definition build_result (contest : ContestRow.t) (quarter : string)
    (homeScore awayScore homeLastDigit awayLastDigit : Z)
    (winningSquare : option SquareRow.t) (prizeAmount : Double.t) (payoutPercent : Z)
    : QuarterResult.t :=
  QuarterResult.mk (ContestRow.id contest) quarter homeScore awayScore
    homeLastDigit awayLastDigit
    (square_id_or_null winningSquare)
    (claimant_or_null SquareRow.claimant_first_name winningSquare)
    (claimant_or_null SquareRow.claimant_last_name winningSquare)
    (claimant_or_null SquareRow.claimant_email winningSquare)
    (claimant_or_null SquareRow.claimant_venmo winningSquare)
    prizeAmount payoutPercent false false.

Definition processQuarter (env : Env) (w : World) (contest : ContestRow.t)
    (quarter : string) (homeScore awayScore : Z) : ProcessResult * World :=
  let quarterName := JS.or_else (QUARTER_DISPLAY quarter) quarter in
  let existing := select_existing w (ContestRow.id contest) quarter in
  if existing_flag QuarterResult.winner_email_sent existing
     && existing_flag QuarterResult.owner_email_sent existing
  then (mkProcessResult false None, w)
  else
    let homeLastDigit := lastDigit homeScore in
    let awayLastDigit := lastDigit awayScore in
    let fetched := fetch_squares env w (ContestRow.id contest) in
    match error fetched, data fetched with
    | None, Some squares =>
        let winningSquare :=
          winningSquare
            (processQuarter_select (ContestRow.row_numbers contest)
               (ContestRow.col_numbers contest) squares homeScore awayScore) in
        let prizeAmount := getPrizeAmount contest quarter in
        let payoutPercent := getPayoutPercent contest quarter in
        let result :=
          build_result contest quarter homeScore awayScore homeLastDigit
            awayLastDigit winningSquare prizeAmount payoutPercent in
        match upsert_error env with
        | Some msg =>
            (mkProcessResult false (Some ("Failed to upsert result: " ++ msg)), w)
        | None =>
            let w1 := upsert_result w result in
            let w2 :=
              upsert_score w1
                (ScoreRow.mk (ContestRow.id contest) quarter homeScore awayScore
                   (square_id_or_null winningSquare) (now env)) in
            let '(winnerEmailSent, w3) :=
              winner_step env w2 contest quarterName homeScore awayScore
                prizeAmount existing winningSquare in
            let '(ownerEmailSent, w4) :=
              owner_step env w3 contest quarterName homeScore awayScore
                prizeAmount existing winningSquare in
            let w5 :=
              update_email_flags w4 (ContestRow.id contest) quarter
                winnerEmailSent ownerEmailSent (now env) in
            (mkProcessResult true None, w5)
        end
    | err, _ =>
        (mkProcessResult false
           (Some ("Failed to fetch squares: "
                  ++ match err with Some msg => msg | None => "undefined" end)), w)
    end.

(** ** saveScores, the manual score entry *)

Record ScoreInput : Type := mkScoreInput {
  input_quarter : string;
  input_homeScore : Z;
  input_awayScore : Z
}.

Record WinnerInfo : Type := mkWinnerInfo {
  info_quarter : string;
  info_homeScore : Z;
  info_awayScore : Z;
  winningSquareId : option string;
  info_winnerName : option string;
  winnerEmail : option string
}.

(** What the outside answers during one call of [saveScores]: the id of the
    signed-in user, the contests table, the store errors the code inspects
    (the upsert of a score, by quarter) and the clock. *)
Record SaveEnv : Type := mkSaveEnv {
  session_user : option string;
  contests_table : list ContestRow.t;
  save_squares_error : option string;
  score_upsert_error : string -> option string;
  save_now : Z
}.

(** "Build winner name if square was claimed". *)
Definition saveScores_winnerName (winningSquare : option SquareRow.t)
    : option string :=
  match winningSquare with
  | Some sq =>
      if JS.truthy (SquareRow.claimant_first_name sq)
      then Some (JS.get (SquareRow.claimant_first_name sq)
                 ++ (if JS.truthy (SquareRow.claimant_last_name sq)
                     then " " ++ JS.get (SquareRow.claimant_last_name sq)
                     else EmptyString))
      else None
  | None => None
  end.

(** "Process each score entry": the loop over the scores. *)
Fixpoint saveScores_loop (senv : SaveEnv) (w : World) (contestId : string)
    (row_numbers col_numbers : list Z) (squares : list SquareRow.t)
    (scores : list ScoreInput) (winners : list WinnerInfo)
    : (string + list WinnerInfo) * World :=
  match scores with
  | [] => (inr winners, w)
  | score :: rest =>
      let winningSquare :=
        winningSquare
          (saveScores_select row_numbers col_numbers squares
             (input_homeScore score) (input_awayScore score)) in
      let winningSquareId := square_id_or_null winningSquare in
      match score_upsert_error senv (input_quarter score) with
      | Some msg =>
          (inl ("Failed to save score for " ++ input_quarter score ++ ": " ++ msg),
           w)
      | None =>
          let w1 :=
            upsert_score w
              (ScoreRow.mk contestId (input_quarter score) (input_homeScore score)
                 (input_awayScore score) winningSquareId (save_now senv)) in
          saveScores_loop senv w1 contestId row_numbers col_numbers squares rest
            (winners
             ++ [mkWinnerInfo (input_quarter score) (input_homeScore score)
                   (input_awayScore score) winningSquareId
                   (saveScores_winnerName winningSquare)
                   (claimant_or_null SquareRow.claimant_email winningSquare)])
      end
  end.

Definition saveScores (senv : SaveEnv) (w : World) (contestId : string)
    (scores : list ScoreInput) : (string + list WinnerInfo) * World :=
  match session_user senv with
  | None => (inl "You must be logged in", w)
  | Some user =>
      match JS.single (filter (fun c => String.eqb (ContestRow.id c) contestId)
                         (contests_table senv)) with
      | None => (inl "Contest not found", w)
      | Some contest =>
          if negb (String.eqb (ContestRow.owner_id contest) user)
          then (inl "You do not own this contest", w)
          else if negb (String.eqb (ContestRow.status contest) "in_progress")
          then (inl "Scores can only be entered when the contest is in progress", w)
          else
            match ContestRow.row_numbers contest, ContestRow.col_numbers contest with
            | Some row_numbers, Some col_numbers =>
                match save_squares_error senv with
                | Some msg => (inl ("Failed to fetch squares: " ++ msg), w)
                | None =>
                    saveScores_loop senv w contestId row_numbers col_numbers
                      (filter (fun sq => String.eqb (SquareRow.contest_id sq) contestId)
                         (squares w))
                      scores []
                end
            | _, _ =>
                (inl "Grid numbers must be assigned before entering scores", w)
            end
      end
  end.

(** ** The run handler, from the resolution of quarters on *)

Record EspnScores : Type := mkEspn {
  period : Z;
  statusName : string;
  completed : bool;
  espn_homeScore : Z;
  espn_awayScore : Z
}.

(** Outcome of the block that fills [quartersToProcess]: the list, or the
    early [in_progress] response of its last branch. *)
Inductive Resolution : Type :=
| Process (quarters : list string)
| InProgress.

(** [for (let p = 1; p <= Math.min(period, 4); p++)], at most [fuel] turns. *)
Fixpoint period_loop (fuel : nat) (p bound : Z) (acc : list string) : list string :=
  match fuel with
  | O => acc
  | S n =>
      if p <=? bound
      then period_loop n (p + 1) bound
             (match PERIOD_TO_QUARTER p with
              | Some q => if JS.truthy (Some q) then (acc ++ [q])%list else acc
              | None => acc
              end)
      else acc
  end.

Definition quartersToProcess (manualQuarter : option string)
    (statusName : string) (completed : bool) (period : Z) : Resolution :=
  if JS.truthy manualQuarter
  then Process [JS.get manualQuarter]
  else if String.eqb statusName "STATUS_FINAL" || completed
  then Process ["q1"; "q2"; "q3"; "final"]
  else if String.eqb statusName "STATUS_END_PERIOD"
          || String.eqb statusName "STATUS_HALFTIME"
  then Process (period_loop (Z.to_nat (Z.min period 4)) 1 (Z.min period 4) [])
  else InProgress.

Record ResultEntry : Type := mkEntry {
  contestId : string;
  entry_quarter : string;
  entry_processed : bool;
  entry_error : option string
}.

(** The inner loop: one [processQuarter] per quarter, its entry pushed and
    its outcome logged. [oracle c q] is what the outside answers during the
    call for contest [c] and quarter [q]. *)
Fixpoint process_quarters (oracle : string -> string -> Env) (w : World)
    (contest : ContestRow.t) (quarters : list string) (homeScore awayScore : Z)
    (results : list ResultEntry) : list ResultEntry * World :=
  match quarters with
  | [] => (results, w)
  | quarter :: rest =>
      let '(result, w1) :=
        processQuarter (oracle (ContestRow.id contest) quarter) w contest quarter
          homeScore awayScore in
      let results1 :=
        (results ++ [mkEntry (ContestRow.id contest) quarter (processed result)
                       (process_error result)])%list in
      let w2 :=
        if JS.truthy (process_error result)
        then insert_log w1
               (mkLog "process_quarter" "error" (Some (ContestRow.id contest))
                  (Some quarter) (process_error result))
        else if processed result
        then insert_log w1
               (mkLog "process_quarter" "success" (Some (ContestRow.id contest))
                  (Some quarter) None)
        else w1 in
      process_quarters oracle w2 contest rest homeScore awayScore results1
  end.

(** [!contest.row_numbers || !contest.col_numbers]. *)
Definition numbers_missing (contest : ContestRow.t) : bool :=
  match ContestRow.row_numbers contest, ContestRow.col_numbers contest with
  | Some _, Some _ => false
  | _, _ => true
  end.

(** The outer loop over the eligible contests. *)
Fixpoint process_contests (oracle : string -> string -> Env) (w : World)
    (contests : list ContestRow.t) (quarters : list string)
    (homeScore awayScore : Z) (results : list ResultEntry)
    : list ResultEntry * World :=
  match contests with
  | [] => (results, w)
  | contest :: rest =>
      if numbers_missing contest
      then process_contests oracle w rest quarters homeScore awayScore results
      else
        let '(results1, w1) :=
          process_quarters oracle w contest quarters homeScore awayScore results in
        process_contests oracle w1 rest quarters homeScore awayScore results1
  end.

Record GameEnv : Type := mkGameEnv {
  game_owner : option AuthUser;
  summary_accepted : bool
}.

Definition totalPayout (rows : list QuarterResult.row) : Double.t :=
  fold_left
    (fun sum r =>
       Double.add sum
         (Double.or_zero (QuarterResult.prize_amount (QuarterResult.columns r))))
    rows (Double.of_Z 0).

Definition processGameComplete (genv : GameEnv) (w : World)
    (contest : ContestRow.t) : World :=
  let results :=
    filter (fun r => String.eqb (QuarterResult.contest_id (QuarterResult.columns r))
                       (ContestRow.id contest))
           (quarter_results w) in
  match results with
  | [] => w
  | _ :: _ =>
      let ownerEmail := ownerEmail (game_owner genv) in
      let ownerName := ownerName (game_owner genv) in
      if negb (JS.truthy ownerEmail) then w
      else
        let summaryTemplate :=
          mkEmail FinalSummary (JS.get ownerEmail) ownerName
            (ContestRow.name contest) EmptyString 0 0 EmptyString (totalPayout results) in
        let w1 := send_email w summaryTemplate (summary_accepted genv) in
        mkWorld (squares w1) (quarter_results w1) (scores w1)
          (journal w1 ++ [UpdateContestStatus (ContestRow.id contest) "completed"])
  end.

Fixpoint complete_contests (goracle : string -> GameEnv) (w : World)
    (contests : list ContestRow.t) : World :=
  match contests with
  | [] => w
  | contest :: rest =>
      let w1 := processGameComplete (goracle (ContestRow.id contest)) w contest in
      let w2 :=
        insert_log w1
          (mkLog "game_complete" "success" (Some (ContestRow.id contest)) None None) in
      complete_contests goracle w2 rest
  end.

Inductive Response : Type :=
| in_progress (period : Z) (statusName : string)
| nothing_to_process
| fetch_contests_failed
| no_contests
| processed_response (quartersProcessed : list string) (contestCount : nat)
    (results : list ResultEntry) (gameFinished : bool).

(** [arr.length === 0]. *)
Definition is_empty {A : Type} (l : list A) : bool :=
  match l with
  | [] => true
  | _ :: _ => false
  end.

(** The part of [serve] that follows the resolution of quarters. *)
Definition serve_contests (oracle : string -> string -> Env)
    (goracle : string -> GameEnv) (contests_fetch : Fetch (list ContestRow.t))
    (quarters : list string) (espn : EspnScores) (w : World)
    : Response * World :=
  if is_empty quarters then (nothing_to_process, w)
  else
    match error contests_fetch, data contests_fetch with
    | Some msg, _ =>
        (fetch_contests_failed,
         insert_log w (mkLog "fetch_contests" "error" None None (Some msg)))
    | None, None =>
        (no_contests,
         insert_log w (mkLog "fetch_contests" "skipped" None None None))
    | None, Some contests =>
        if is_empty contests
        then (no_contests,
              insert_log w (mkLog "fetch_contests" "skipped" None None None))
        else
          let '(results, w1) :=
            process_contests oracle w contests quarters
              (espn_homeScore espn) (espn_awayScore espn) [] in
          let isGameFinal :=
            String.eqb (statusName espn) "STATUS_FINAL" || completed espn in
          let w2 :=
            if isGameFinal
            then
              let w' := complete_contests goracle w1 contests in
              mkWorld (squares w') (quarter_results w') (scores w')
                (journal w' ++ [UpdateConfigGameFinished])
            else w1 in
          (processed_response quarters (List.length contests) results isGameFinal, w2)
    end.

(** [serve], from "Determine which quarters to process" to the response. *)
Definition serve_quarters (oracle : string -> string -> Env)
    (goracle : string -> GameEnv) (contests_fetch : Fetch (list ContestRow.t))
    (manualQuarter : option string) (espn : EspnScores) (w : World)
    : Response * World :=
  match quartersToProcess manualQuarter (statusName espn) (completed espn)
          (period espn) with
  | InProgress => (in_progress (period espn) (statusName espn), w)
  | Process quarters =>
      serve_contests oracle goracle contests_fetch quarters espn w
  end.

(** ** Observations used by the statements *)

(** The decision table of the specification, written from its words. *)
Module ResolverSpec.

Definition quarter_of_period (p : Z) : list string :=
  match p with
  | 1 => ["q1"]
  | 2 => ["q2"]
  | 3 => ["q3"]
  | 4 => ["final"]
  | _ => []
  end.

(** The periods [1], ..., [n] in ascending order. *)
Definition periods_upto (n : Z) : list Z :=
  map Z.of_nat (seq 1 (Z.to_nat n)).

Definition is_final (statusName : string) (completed : bool) : bool :=
  String.eqb statusName "STATUS_FINAL" || completed.

Definition is_boundary (statusName : string) : bool :=
  String.eqb statusName "STATUS_END_PERIOD"
  || String.eqb statusName "STATUS_HALFTIME".

Definition resolveQuarters (manualOverride : option string)
    (statusName : string) (completed : bool) (period : Z) : list string :=
  match JS.or_null manualOverride with
  | Some q => [q]
  | None =>
      if is_final statusName completed
      then ["q1"; "q2"; "q3"; "final"]
      else if is_boundary statusName
      then flat_map quarter_of_period (periods_upto (Z.min period 4))
      else []
  end.

End ResolverSpec.

Definition quarters_of (r : Resolution) : list string :=
  match r with
  | Process quarters => quarters
  | InProgress => []
  end.

(** What one call of [processQuarter] reads and computes. *)
Section Call.

Variables (env : Env) (w : World) (contest : ContestRow.t) (quarter : string)
          (homeScore awayScore : Z).

(** The squares the fetch returns for the contest. *)
Definition fetched_squares : list SquareRow.t :=
  filter (fun sq => String.eqb (SquareRow.contest_id sq) (ContestRow.id contest))
         (squares w).

(** The winning square the call computes. *)
Definition computed_winner : option SquareRow.t :=
  winningSquare
    (processQuarter_select (ContestRow.row_numbers contest)
       (ContestRow.col_numbers contest) fetched_squares homeScore awayScore).

(** The record the call hands to the upsert. *)
Definition built_result : QuarterResult.t :=
  build_result contest quarter homeScore awayScore (lastDigit homeScore)
    (lastDigit awayScore) computed_winner (getPrizeAmount contest quarter)
    (getPayoutPercent contest quarter).

(** The call passes its three guards: not yet fully processed, squares
    fetched, upsert accepted. *)
Definition runs : bool :=
  negb (existing_flag QuarterResult.winner_email_sent
          (select_existing w (ContestRow.id contest) quarter)
        && existing_flag QuarterResult.owner_email_sent
             (select_existing w (ContestRow.id contest) quarter))
  && match squares_error env with Some _ => false | None => true end
  && match upsert_error env with Some _ => false | None => true end.

(** The row the call reads at its start. *)
Definition existing_row : option QuarterResult.row :=
  select_existing w (ContestRow.id contest) quarter.

(** The call makes the transport call for the winner, for the owner. *)
Definition sends_winner : bool :=
  negb (existing_flag QuarterResult.winner_email_sent existing_row)
  && JS.truthy (claimant_or_null SquareRow.claimant_email computed_winner).

Definition sends_owner : bool :=
  negb (existing_flag QuarterResult.owner_email_sent existing_row)
  && JS.truthy (ownerEmail (owner env)).

(** The flags the final update writes. *)
Definition final_winner_flag : bool :=
  if sends_winner then winner_accepted env
  else if negb (JS.truthy (claimant_or_null SquareRow.claimant_email computed_winner))
  then true
  else existing_flag QuarterResult.winner_email_sent existing_row.

Definition final_owner_flag : bool :=
  if sends_owner then owner_accepted env
  else existing_flag QuarterResult.owner_email_sent existing_row.

Definition built_score : ScoreRow.t :=
  ScoreRow.mk (ContestRow.id contest) quarter homeScore awayScore
    (square_id_or_null computed_winner) (now env).

Definition winner_effects : list Effect :=
  if sends_winner
  then [SendEmail
          (winnerTemplate contest (JS.or_else (QUARTER_DISPLAY quarter) quarter)
             homeScore awayScore (getPrizeAmount contest quarter) computed_winner)
          (winner_accepted env)]
  else [].

Definition owner_effects : list Effect :=
  if sends_owner
  then [SendEmail
          (ownerTemplate (owner env) contest
             (JS.or_else (QUARTER_DISPLAY quarter) quarter)
             homeScore awayScore (getPrizeAmount contest quarter) computed_winner)
          (owner_accepted env)]
  else [].

(** The effects of a call that passes its guards, in order. *)
Definition run_effects : list Effect :=
  [UpsertResult built_result; UpsertScore built_score]
  ++ winner_effects ++ owner_effects
  ++ [UpdateEmailFlags (ContestRow.id contest) quarter
        final_winner_flag final_owner_flag].


(** The world a call that passes its guards leaves. *)
Definition run_world : World :=
  mkWorld (squares w)
    (update_rows (upsert_rows (quarter_results w) built_result)
       (ContestRow.id contest) quarter final_winner_flag final_owner_flag
       (now env))
    (upsert_score_rows (scores w) built_score)
    (journal w ++ run_effects).

End Call.

(** The entry of the manual action for one score, built on the selection of
    the pipeline ([processQuarter_select] on the contest's assignments and
    fetched squares). *)
Definition pipeline_winner_info (w : World) (contest : ContestRow.t)
    (score : ScoreInput) : WinnerInfo :=
  let picked :=
    winningSquare
      (processQuarter_select (ContestRow.row_numbers contest)
         (ContestRow.col_numbers contest)
         (filter (fun sq => String.eqb (SquareRow.contest_id sq)
                              (ContestRow.id contest)) (squares w))
         (input_homeScore score) (input_awayScore score)) in
  mkWinnerInfo (input_quarter score) (input_homeScore score)
    (input_awayScore score) (square_id_or_null picked)
    (saveScores_winnerName picked)
    (claimant_or_null SquareRow.claimant_email picked).


(** The rows, the response entries and the effects that concern one
    contest. A transport call names no contest. *)
Definition rows_of (contest_id : string) (w : World) : list QuarterResult.row :=
  filter (fun r => String.eqb (QuarterResult.contest_id (QuarterResult.columns r))
                     contest_id)
         (quarter_results w).

Definition entries_of (contest_id : string) (results : list ResultEntry)
    : list ResultEntry :=
  filter (fun e => String.eqb (contestId e) contest_id) results.

Definition mentions (contest_id : string) (e : Effect) : bool :=
  match e with
  | UpsertResult r => String.eqb (QuarterResult.contest_id r) contest_id
  | UpsertScore s => String.eqb (ScoreRow.contest_id s) contest_id
  | SendEmail _ _ => false
  | UpdateEmailFlags c _ _ _ => String.eqb c contest_id
  | UpdateContestStatus c _ => String.eqb c contest_id
  | UpdateConfigGameFinished => false
  | InsertLog entry =>
      match log_contestId entry with
      | Some c => String.eqb c contest_id
      | None => false
      end
  end.

(** [i] is the first position of [l] that holds [d]. *)
Definition first_position (l : list Z) (d : Z) (i : Z) : Prop :=
  0 <= i
  /\ nth_error l (Z.to_nat i) = Some d
  /\ forall k, 0 <= k < i -> nth_error l (Z.to_nat k) <> Some d.

(** What a part of the run leaves untouched for contest [x]: its rows, and
    a journal that grows by effects that do not name it. *)
Definition untouched (x : string) (w w' : World) : Prop :=
  rows_of x w' = rows_of x w
  /\ exists d, journal w' = (journal w ++ d)%list
               /\ Forall (fun e => mentions x e = false) d.

(** An error log entry about one contest. *)
Definition reports_error (contest_id : string) (e : Effect) : bool :=
  match e with
  | InsertLog entry =>
      String.eqb (log_status entry) "error"
      && match log_contestId entry with
         | Some c => String.eqb c contest_id
         | None => false
         end
  | _ => false
  end.

(** The per-(contest, quarter) results of a response. *)
Definition response_results (r : Response) : list ResultEntry :=
  match r with
  | processed_response _ _ results _ => results
  | _ => []
  end.

(** The effects a later world has on top of an earlier one. *)
Definition new_effects (before after : World) : list Effect :=
  skipn (List.length (journal before)) (journal after).

Definition kind_eqb (a b : EmailKind) : bool :=
  match a, b with
  | WinnerNotification, WinnerNotification => true
  | OwnerQuarter, OwnerQuarter => true
  | FinalSummary, FinalSummary => true
  | _, _ => false
  end.

(** A transport call for a message of kind [k], whatever its outcome. *)
Definition is_attempt (k : EmailKind) (e : Effect) : bool :=
  match e with
  | SendEmail m _ => kind_eqb (kind m) k
  | _ => false
  end.

(** A transport call for a message of kind [k] that the transport accepted. *)
Definition is_delivery (k : EmailKind) (e : Effect) : bool :=
  match e with
  | SendEmail m true => kind_eqb (kind m) k
  | _ => false
  end.

Definition attempts (k : EmailKind) (l : list Effect) : nat :=
  List.length (filter (is_attempt k) l).

Definition deliveries (k : EmailKind) (l : list Effect) : nat :=
  List.length (filter (is_delivery k) l).


(** ** A small contest to run the definitions on *)

Module Demo.

Definition contest : ContestRow.t :=
  ContestRow.mk "c1" "Office pool" "office-pool" "u1" "Chiefs" "Eagles"
    (Some [7; 3; 0; 1; 2; 4; 5; 6; 8; 9])
    (Some [9; 8; 3; 0; 1; 2; 4; 5; 6; 7])
    (Double.of_Z 10) (Some 25) (Some 25) None (Some 25) "in_progress".

(** The same grid before its numbers were drawn. *)
Definition unnumbered : ContestRow.t :=
  ContestRow.mk "c0" "Late pool" "late-pool" "u2" "Chiefs" "Eagles"
    None None (Double.of_Z 5) (Some 25) (Some 25) (Some 25) (Some 25) "open".

(** Row 0 holds digit 7 and column 2 holds digit 3: the square of 47-23. *)
Definition claimed : SquareRow.t :=
  SquareRow.mk "s02" "c1" 0 2 (Some "Ann") (Some "Lee")
    (Some "ann@example.org") None.

(** Row 1 holds digit 3 and column 0 holds digit 9: the square of 13-9. *)
Definition unclaimed : SquareRow.t :=
  SquareRow.mk "s10" "c1" 1 0 None None None None.

Definition stored (winner_sent owner_sent : bool) : QuarterResult.row :=
  QuarterResult.mkrow
    (QuarterResult.mk "c1" "q1" 47 23 7 3 (Some "s02") (Some "Ann") (Some "Lee")
       (Some "ann@example.org") None (Double.of_Z 250) 25 winner_sent owner_sent)
    (if winner_sent then Some 900 else None)
    (if owner_sent then Some 900 else None).

Definition fresh : World := mkWorld [claimed; unclaimed] [] [] [].


Definition done : World :=
  mkWorld [claimed; unclaimed] [stored true true] [] [].

Definition owner_user : AuthUser :=
  mkAuthUser (Some "owner@example.org") (Some "Pat Owner") None.

Definition all_well : Env := mkEnv None None (Some owner_user) true true 1000.

(** The transport refuses the owner's message. *)
Definition owner_refused : Env :=
  mkEnv None None (Some owner_user) true false 1000.

(** The store refuses the upsert. *)
Definition upsert_refused : Env :=
  mkEnv None (Some "timeout") (Some owner_user) true true 1000.

Definition oracle (contest_id quarter : string) : Env := all_well.

Definition goracle (contest_id : string) : GameEnv :=
  mkGameEnv (Some owner_user) true.

(** The owner enters scores by hand. *)
Definition owner_session : SaveEnv :=
  mkSaveEnv (Some "u1") [unnumbered; contest] None (fun _ => None) 1000.

End Demo.

(** * The rest of the edge function and its callers *)

(** ** escapeHtml *)

(** [s.replace(/c/g, r)] for a pattern of one character. Strings are byte
    strings; the five characters replaced are ASCII, which never occur inside
    the encoding of another character. *)
Fixpoint replace_all (c : Ascii.ascii) (r : string) (s : string) : string :=
  match s with
  | EmptyString => EmptyString
  | String a t =>
      if Ascii.eqb a c then r ++ replace_all c r t
      else String a (replace_all c r t)
  end.

Definition escapeHtml (unsafe : string) : string :=
  replace_all "'"%char "&#039;"
    (replace_all "034"%char "&quot;"
       (replace_all ">"%char "&gt;"
          (replace_all "<"%char "&lt;"
             (replace_all "&"%char "&amp;" unsafe)))).

(** The characters [escapeHtml] rewrites. *)
Definition html_special (a : Ascii.ascii) : bool :=
  Ascii.eqb a "&"%char || Ascii.eqb a "<"%char || Ascii.eqb a ">"%char
  || Ascii.eqb a "034"%char || Ascii.eqb a "'"%char.

(** The entity of one character, or the character itself. *)
Definition escape_char (a : Ascii.ascii) : string :=
  if Ascii.eqb a "&"%char then "&amp;"
  else if Ascii.eqb a "<"%char then "&lt;"
  else if Ascii.eqb a ">"%char then "&gt;"
  else if Ascii.eqb a "034"%char then "&quot;"
  else if Ascii.eqb a "'"%char then "&#039;"
  else String a EmptyString.

Fixpoint escape_each (s : string) : string :=
  match s with
  | EmptyString => EmptyString
  | String a t => escape_char a ++ escape_each t
  end.

(** No character of [s] is one that [escapeHtml] rewrites. *)
Definition plain (s : string) : Prop :=
  Forall (fun a => html_special a = false) (list_ascii_of_string s).

(** The markup characters: the specials other than the ampersand. *)
Definition markup (a : Ascii.ascii) : bool :=
  Ascii.eqb a "<"%char || Ascii.eqb a ">"%char
  || Ascii.eqb a "034"%char || Ascii.eqb a "'"%char.

(** ** validateNumbers, the check of an assignment before it is saved *)

Inductive Validation : Type :=
| valid
| invalid (error : string).

(** [arr.filter((n) => n !== null)]. *)
Definition non_null (arr : list (option Z)) : list Z :=
  flat_map (fun n => match n with Some v => [v] | None => [] end) arr.

Definition validateNumbers (arr : list (option Z)) : Validation :=
  let filtered := non_null arr in
  if negb (Nat.eqb (List.length filtered) 10)
  then invalid "All 10 numbers are required"
  else
    let unique := nodup Z.eq_dec filtered in
    if negb (Nat.eqb (List.length unique) 10)
    then invalid "Each number must be unique (no duplicates)"
    else
      let hasInvalid := existsb (fun n => (n <? 0) || (n >? 9)) filtered in
      if hasInvalid
      then invalid "Numbers must be between 0 and 9"
      else valid.

Definition digits : list Z := [0; 1; 2; 3; 4; 5; 6; 7; 8; 9].

(** ** Observations on saveScores *)

(** The guards of [saveScores] all pass for the contest the lookup finds. *)
Definition save_guards_pass (senv : SaveEnv) (contestId : string)
    (contest : ContestRow.t) : Prop :=
  JS.single (filter (fun c => String.eqb (ContestRow.id c) contestId)
               (contests_table senv)) = Some contest
  /\ session_user senv = Some (ContestRow.owner_id contest)
  /\ ContestRow.status contest = "in_progress"
  /\ numbers_missing contest = false
  /\ save_squares_error senv = None.

(** The score row the manual entry upserts for one score. *)
Definition entered_score (senv : SaveEnv) (w : World) (contest : ContestRow.t)
    (score : ScoreInput) : ScoreRow.t :=
  ScoreRow.mk (ContestRow.id contest) (input_quarter score)
    (input_homeScore score) (input_awayScore score)
    (winningSquareId (pipeline_winner_info w contest score)) (save_now senv).

(** [.from('scores').select().eq('contest_id', c).eq('quarter', q)]. *)
Definition select_scores (w : World) (contest_id quarter : string)
    : list ScoreRow.t :=
  filter (score_key_matches contest_id quarter) (scores w).

(** The last score of a submission entered for a quarter. *)
Definition last_entered (quarter : string) (submitted : list ScoreInput)
    : option ScoreInput :=
  find (fun s => String.eqb (input_quarter s) quarter) (rev submitted).

(** ** More sample data *)

Module Sample.

(** The store refuses the upsert of the halftime score. *)
Definition halftime_refused : SaveEnv :=
  mkSaveEnv (Some "u1") [Demo.unnumbered; Demo.contest] None
    (fun quarter => if String.eqb quarter "q2" then Some "timeout" else None)
    1000.

End Sample.

(** ** Observations on a run *)

Definition all_quarters : list string := ["q1"; "q2"; "q3"; "final"].




(** ** serve, from the request to the response *)

(** The body of a manual trigger, as the handler reads it: [body.quarter]
    and whether [body.force === true]. *)
Record Body : Type := mkBody {
  body_quarter : option string;
  body_force : bool
}.

(** A request: its method and its JSON body ([None] when [req.json()]
    throws: no body, or not JSON). *)
Record Request : Type := mkRequest {
  method : string;
  body : option Body
}.

Record EnvVars : Type := mkEnvVars {
  SUPABASE_URL : option string;
  SUPABASE_SERVICE_ROLE_KEY : option string;
  RESEND_API_KEY : option string
}.

(** The row of [super_bowl_config], as far as the handler reads and writes
    it. *)
Record Config : Type := mkConfig {
  enabled : bool;
  game_finished : bool;
  last_checked_at : option Z;
  last_status : option string;
  last_period : option Z
}.

(** The store with its configuration row ([None]: no row, or the query
    failed). *)
Record Server : Type := mkServer {
  store : World;
  config : option Config
}.

(** What [fetchESPNScores] gives the handler: it throws, finds no game, or
    finds one. The scores of a game found are taken as numbers. *)
Inductive EspnOutcome : Type :=
| espn_throws (message : string)
| espn_not_found
| espn_found (espn : EspnScores).

Inductive HttpResponse : Type :=
| method_not_allowed
| missing_env_vars (missing : list string)
| no_config_found
| disabled
| finished
| no_game
| internal_server_error (details : string)
| run_response (r : Response).

(** The HTTP status of a response. *)
Definition http_status (r : HttpResponse) : Z :=
  match r with
  | method_not_allowed => 405
  | missing_env_vars _ => 500
  | no_config_found => 500
  | internal_server_error _ => 500
  | run_response fetch_contests_failed => 500
  | _ => 200
  end.

(** "Parse optional body for manual trigger". *)
Definition parse_trigger (req : Request) : option string * bool :=
  if String.eqb (method req) "POST"
  then match body req with
       | Some b => (JS.or_null (body_quarter b), body_force b)
       | None => (None, false)
       end
  else (None, false).

(** The names of the variables that are not set. *)
Definition missing_vars (vars : EnvVars) : list string :=
  ((if JS.truthy (SUPABASE_URL vars) then [] else ["SUPABASE_URL"])
   ++ (if JS.truthy (SUPABASE_SERVICE_ROLE_KEY vars) then []
       else ["SUPABASE_SERVICE_ROLE_KEY"])
   ++ (if JS.truthy (RESEND_API_KEY vars) then [] else ["RESEND_API_KEY"]))%list.

(** [x || null] on the period: 0 becomes null. *)
Definition period_or_null (p : Z) : option Z :=
  if p =? 0 then None else Some p.

(** "Update last checked". *)
Definition update_last_checked (cfg : Config) (outcome : EspnOutcome) (at_ : Z)
    : Config :=
  match outcome with
  | espn_found espn =>
      mkConfig (enabled cfg) (game_finished cfg) (Some at_)
        (JS.or_null (Some (statusName espn))) (period_or_null (period espn))
  | _ =>
      mkConfig (enabled cfg) (game_finished cfg) (Some at_) None None
  end.

(** The game was final in a run that reached the contests. *)
Definition marks_finished (r : Response) : bool :=
  match r with
  | processed_response _ _ _ gameFinished => gameFinished
  | _ => false
  end.

(** The handler past its early exits: the scoreboard is fetched, the last
    check recorded and the quarters processed. An exception of the fetch is
    caught at the end of the handler. *)
Definition serve_game (outcome : EspnOutcome)
    (oracle : string -> string -> Env) (goracle : string -> GameEnv)
    (contests_fetch : Fetch (list ContestRow.t)) (at_ : Z)
    (manualQuarter : option string) (cfg : Config) (w : World)
    : HttpResponse * Server :=
  match outcome with
  | espn_throws message =>
      (internal_server_error message,
       mkServer
         (insert_log w (mkLog "unhandled_error" "error" None None (Some message)))
         (Some cfg))
  | espn_not_found =>
      (no_game,
       mkServer
         (insert_log w (mkLog "check_scores" "skipped" None None None))
         (Some (update_last_checked cfg outcome at_)))
  | espn_found espn =>
      let cfg1 := update_last_checked cfg outcome at_ in
      let w1 := insert_log w (mkLog "check_scores" "success" None None None) in
      let '(r, w2) :=
        serve_quarters oracle goracle contests_fetch manualQuarter espn w1 in
      (run_response r,
       mkServer w2
         (Some (if marks_finished r
                then mkConfig (enabled cfg1) true (last_checked_at cfg1)
                       (last_status cfg1) (last_period cfg1)
                else cfg1)))
  end.

Definition serve (vars : EnvVars) (outcome : EspnOutcome)
    (oracle : string -> string -> Env) (goracle : string -> GameEnv)
    (contests_fetch : Fetch (list ContestRow.t)) (at_ : Z)
    (req : Request) (sv : Server) : HttpResponse * Server :=
  if negb (String.eqb (method req) "GET") && negb (String.eqb (method req) "POST")
  then (method_not_allowed, sv)
  else
    let '(manualQuarter, forceProcess) := parse_trigger req in
    if negb (is_empty (missing_vars vars))
    then (missing_env_vars (missing_vars vars), sv)
    else
      match config sv with
      | None =>
          (no_config_found,
           mkServer
             (insert_log (store sv)
                (mkLog "check_scores" "error" None None
                   (Some "No super bowl config found")))
             None)
      | Some cfg =>
          if negb (enabled cfg) && negb forceProcess then (disabled, sv)
          else if game_finished cfg && negb forceProcess then (finished, sv)
          else
            serve_game outcome oracle goracle contests_fetch at_ manualQuarter
              cfg (store sv)
      end.

(** ** fetchESPNScores *)

(** The scoreboard document, as far as the function reads it. A field that
    may be missing or null, or an object on an optional chain, is an option;
    an entry of an array may be null. *)
Record ESPNCompetitor : Type := mkCompetitor {
  homeAway : string;
  team_displayName : option string;
  score : option string
}.

Record ESPNStatus : Type := mkStatus {
  status_period : option Z;
  type_name : option string;
  type_detail : option string;
  type_completed : option bool
}.

Record ESPNCompetition : Type := mkCompetition {
  status : option ESPNStatus;
  competitors : option (list (option ESPNCompetitor))
}.

Record ESPNEvent : Type := mkEvent {
  event_name : option string;
  season_type_name : option string;
  competitions : option (list (option ESPNCompetition))
}.

(** What [response.json()] gives: it rejects (the body is not JSON), or the
    document is null, or it is an object with its [events]. *)
Inductive ESPNBody : Type :=
| not_json (text : string)
| null_document
| document (events : option (list (option ESPNEvent))).

(** What [fetch] gives: it rejects, or there is a response with its status
    code, whether it is [ok], and its body. [text] is the rejection as
    [String(error)] renders it. *)
Inductive ESPNAnswer : Type :=
| fetch_rejects (text : string)
| responds (status : string) (ok : bool) (body : ESPNBody).

(** What the function throws: the rejection of [fetch] or of
    [response.json()], its own error on a response that is not ok, or the
    TypeError of reading a property of null. *)
Inductive Thrown : Type :=
| thrown_by_fetch (text : string)
| thrown_status (status : string)
| thrown_by_json (text : string)
| thrown_null (property : string).

(** [String(error)]. *)
Definition describe (t : Thrown) : string :=
  match t with
  | thrown_by_fetch text => text
  | thrown_status status => "Error: ESPN API returned " ++ status
  | thrown_by_json text => text
  | thrown_null property =>
      "TypeError: Cannot read properties of null (reading '" ++ property ++ "')"
  end.

(** The object returned when a game is found; a score is [None] when
    [parseInt] gives NaN. *)
Record GameFound : Type := mkGame {
  game_period : Z;
  game_statusName : string;
  game_statusDetail : string;
  game_completed : bool;
  game_homeScore : option Z;
  game_awayScore : option Z;
  homeTeam : string;
  awayTeam : string
}.

Inductive Scoreboard : Type :=
| scoreboard_throws (t : Thrown)
| scoreboard_empty
| scoreboard_game (g : GameFound).

(** [String.prototype.toLowerCase] on the bytes of a string: the letters A
    to Z are mapped; no other character lower-cases to a letter of
    'super bowl'. *)
Definition lower (c : Ascii.ascii) : Ascii.ascii :=
  let n := nat_of_ascii c in
  if (65 <=? n)%nat && (n <=? 90)%nat then ascii_of_nat (n + 32) else c.

Fixpoint toLowerCase (s : string) : string :=
  match s with
  | EmptyString => EmptyString
  | String c t => String (lower c) (toLowerCase t)
  end.

(** [s.includes(p)]. *)
Fixpoint includes (p s : string) : bool :=
  String.prefix p s
  || match s with
     | EmptyString => false
     | String _ t => includes p t
     end.

(** The season test of the loop together with its fall-back on the name:
    [false] is the [continue]. *)
Definition is_candidate (event : ESPNEvent) : bool :=
  negb (match season_type_name event with
        | Some n => negb (String.eqb n "Postseason") && negb (String.eqb n "Post Season")
        | None => true
        end)
  || match event_name event with
     | Some n => includes "super bowl" (toLowerCase n)
     | None => false
     end.

(** [competitors.find((c) => c.homeAway === side)]: the first competitor of
    that side, none, or the TypeError of the callback on a null entry met
    before one. *)
Inductive Sought : Type :=
| sought (c : ESPNCompetitor)
| not_listed
| null_entry.

Fixpoint seek (side : string) (l : list (option ESPNCompetitor)) : Sought :=
  match l with
  | [] => not_listed
  | None :: _ => null_entry
  | Some c :: t => if String.eqb (homeAway c) side then sought c else seek side t
  end.

(** [comp.competitors?.find(...)]. *)
Definition find_side (side : string) (cs : option (list (option ESPNCompetitor)))
    : Sought :=
  match cs with
  | Some l => seek side l
  | None => not_listed
  end.

(** One turn of the loop: [continue], [return] or a throw. *)
Inductive Turn : Type :=
| passes
| returns (g : GameFound)
| throws (t : Thrown).

(** [data.events || []]. *)
Definition listed_events (events : option (list (option ESPNEvent)))
    : list (option ESPNEvent) :=
  match events with
  | Some l => l
  | None => []
  end.

Section Fetch.

(** [parseInt(s, 10)], [None] for NaN. *)
Variable parseInt : string -> option Z.

(** The returned object. *)
Definition found (comp : ESPNCompetition) (homeComp awayComp : ESPNCompetitor)
    : GameFound :=
  mkGame
    (match status comp with
     | Some st => JS.or_zero (status_period st)
     | None => 0
     end)
    (match status comp with
     | Some st => JS.or_else (type_name st) EmptyString
     | None => EmptyString
     end)
    (match status comp with
     | Some st => JS.or_else (type_detail st) EmptyString
     | None => EmptyString
     end)
    (match status comp with
     | Some st => match type_completed st with Some b => b | None => false end
     | None => false
     end)
    (parseInt (JS.or_else (score homeComp) "0"))
    (parseInt (JS.or_else (score awayComp) "0"))
    (JS.or_else (team_displayName homeComp) "Home")
    (JS.or_else (team_displayName awayComp) "Away").

(** The body of the loop on one entry of [events]. A null entry throws at
    [event.season]. *)
Definition game_of_event (entry : option ESPNEvent) : Turn :=
  match entry with
  | None => throws (thrown_null "season")
  | Some event =>
      if is_candidate event
      then match competitions event with
           | Some (Some comp :: _) =>
               match find_side "home" (competitors comp) with
               | null_entry => throws (thrown_null "homeAway")
               | homeComp =>
                   match find_side "away" (competitors comp) with
                   | null_entry => throws (thrown_null "homeAway")
                   | awayComp =>
                       match homeComp, awayComp with
                       | sought h, sought a => returns (found comp h a)
                       | _, _ => passes
                       end
                   end
               end
           | _ => passes
           end
      else passes
  end.

Fixpoint find_game (l : list (option ESPNEvent)) : Scoreboard :=
  match l with
  | [] => scoreboard_empty
  | entry :: rest =>
      match game_of_event entry with
      | passes => find_game rest
      | returns g => scoreboard_game g
      | throws t => scoreboard_throws t
      end
  end.

Definition fetchESPNScores (answer : ESPNAnswer) : Scoreboard :=
  match answer with
  | fetch_rejects text => scoreboard_throws (thrown_by_fetch text)
  | responds status ok body =>
      if negb ok then scoreboard_throws (thrown_status status)
      else
        match body with
        | not_json text => scoreboard_throws (thrown_by_json text)
        | null_document => scoreboard_throws (thrown_null "events")
        | document events => find_game (listed_events events)
        end
  end.

(** What the handler works with: the scores as numbers. *)
Definition outcome_of (s : Scoreboard) : option EspnOutcome :=
  match s with
  | scoreboard_throws t => Some (espn_throws (describe t))
  | scoreboard_empty => Some espn_not_found
  | scoreboard_game g =>
      match game_homeScore g, game_awayScore g with
      | Some h, Some a =>
          Some (espn_found
                  (mkEspn (game_period g) (game_statusName g) (game_completed g) h a))
      | _, _ => None
      end
  end.

End Fetch.

(** ** The dashboard's actions on the edge function *)

(** The JSON body of a response as [triggerScoreCheck] reads it:
    [result.error] and [result.status]. *)
Definition response_error (r : HttpResponse) : option string :=
  match r with
  | method_not_allowed => Some "Method not allowed"
  | missing_env_vars missing =>
      Some ("Missing env vars: " ++ String.concat ", " missing)
  | no_config_found => Some "No config found"
  | internal_server_error _ => Some "Internal server error"
  | run_response fetch_contests_failed => Some "Failed to fetch contests"
  | _ => None
  end.

Definition response_status (r : HttpResponse) : option string :=
  match r with
  | disabled => Some "disabled"
  | finished => Some "finished"
  | no_game => Some "no_game"
  | run_response (in_progress _ _) => Some "in_progress"
  | run_response nothing_to_process => Some "nothing_to_process"
  | run_response no_contests => Some "no_contests"
  | run_response (processed_response _ _ _ _) => Some "processed"
  | _ => None
  end.

(** [response.ok]. *)
Definition response_ok (r : HttpResponse) : bool :=
  (200 <=? http_status r) && (http_status r <=? 299).

(** What the outside answers to an action: whether [requireAuth] finds a
    user, the two variables of the server's environment, whether the request
    reaches the function and its answer comes back as JSON (when it does not,
    the function is taken not to have run), and whether the store accepts
    the action's own update. *)
Record ActionEnv : Type := mkActionEnv {
  signed_in : bool;
  NEXT_PUBLIC_SUPABASE_URL : option string;
  SERVICE_ROLE_KEY : option string;
  function_answers : bool;
  update_accepted : bool
}.

(** The edge function as the actions see it. *)
Definition EdgeFunction : Type := Request -> Server -> HttpResponse * Server.

Definition triggerScoreCheck (aenv : ActionEnv) (edge : EdgeFunction)
    (quarter : option string) (force : bool) (sv : Server)
    : (string + string) * Server :=
  if negb (signed_in aenv) then (inl "Failed to trigger score check", sv)
  else if negb (JS.truthy (NEXT_PUBLIC_SUPABASE_URL aenv))
          || negb (JS.truthy (SERVICE_ROLE_KEY aenv))
  then (inl "Missing Supabase configuration", sv)
  else if negb (function_answers aenv)
  then (inl "Failed to trigger score check", sv)
  else
    let '(result, sv') := edge (mkRequest "POST" (Some (mkBody quarter force))) sv in
    if negb (response_ok result)
    then (inl (JS.or_else (response_error result) "Edge function failed"), sv')
    else (inr (JS.or_else (response_status result) "triggered"), sv').

(** [.update({ flags: false, timestamps: null }).eq('id', resultId)]. The
    rows of the model carry no id: a row is named by its position in the
    table, which no operation of the model changes. *)
Fixpoint reset_row (resultId : nat) (rows : list QuarterResult.row)
    : list QuarterResult.row :=
  match rows, resultId with
  | [], _ => []
  | r :: t, O => set_flags false false 0 r :: t
  | r :: t, S n => r :: reset_row n t
  end.

Definition reset_email_flags (resultId : nat) (w : World) : World :=
  mkWorld (squares w) (reset_row resultId (quarter_results w)) (scores w)
          (journal w).

Definition resendQuarterEmails (aenv : ActionEnv) (edge : EdgeFunction)
    (resultId : nat) (sv : Server) : (string + string) * Server :=
  if negb (signed_in aenv) then (inl "Failed to resend emails", sv)
  else if negb (update_accepted aenv) then (inl "Failed to resend emails", sv)
  else
    let sv1 := mkServer (reset_email_flags resultId (store sv)) (config sv) in
    match triggerScoreCheck aenv edge None true sv1 with
    | (inl message, sv2) => (inl message, sv2)
    | (inr _, sv2) => (inr "resent", sv2)
    end.

(** ** Observations on a request *)

(** The request passes the method check and the environment is complete. *)
Definition admitted (vars : EnvVars) (req : Request) : bool :=
  (String.eqb (method req) "GET" || String.eqb (method req) "POST")
  && is_empty (missing_vars vars).

(** The request asks to force the run. *)
Definition forces (req : Request) : bool := snd (parse_trigger req).

(** An event whose first competition lists a competitor of each side, no
    null entry being met on the way to either. *)
Definition has_both_sides (event : ESPNEvent) : bool :=
  match competitions event with
  | Some (Some comp :: _) =>
      match find_side "home" (competitors comp),
            find_side "away" (competitors comp) with
      | sought _, sought _ => true
      | _, _ => false
      end
  | _ => false
  end.

(** The feed says that a quarter or the game has ended. *)
Definition at_boundary (statusName : string) (completed : bool) : bool :=
  String.eqb statusName "STATUS_FINAL" || completed
  || String.eqb statusName "STATUS_END_PERIOD"
  || String.eqb statusName "STATUS_HALFTIME".

(** The result rows an effect list upserts. *)
Fixpoint upserted (l : list Effect) : list QuarterResult.t :=
  match l with
  | [] => []
  | UpsertResult r :: t => r :: upserted t
  | _ :: t => upserted t
  end.

(** ** A small configuration to run the handler on *)

Module Board.

Definition vars : EnvVars :=
  mkEnvVars (Some "https://db.example.org") (Some "service-key") (Some "re_key").

Definition cron : Request := mkRequest "GET" None.

Definition forced : Request := mkRequest "POST" (Some (mkBody None true)).

Definition switched_on : Config := mkConfig true false None None None.

Definition switched_off : Config := mkConfig false false None None None.

Definition over : Config :=
  mkConfig true true (Some 900) (Some "STATUS_FINAL") (Some 4).

Definition first_quarter_ended : EspnScores :=
  mkEspn 1 "STATUS_END_PERIOD" false 47 23.

Definition halftime : EspnScores := mkEspn 2 "STATUS_HALFTIME" false 47 23.

Definition second_quarter : EspnScores :=
  mkEspn 2 "STATUS_IN_PROGRESS" false 47 23.

Definition game_over : EspnScores := mkEspn 4 "STATUS_FINAL" true 47 23.

Definition contests : Fetch (list ContestRow.t) :=
  mkFetch (Some [Demo.unnumbered; Demo.contest]) None.

Definition admin : ActionEnv :=
  mkActionEnv true (Some "https://db.example.org") (Some "service-key") true true.

(** The edge function at a moment of the game. *)
Definition edge (espn : EspnScores) : EdgeFunction :=
  serve vars (espn_found espn) Demo.oracle Demo.goracle contests 1000.

(** A stand-in for [parseInt(s, 10)] on the samples: the value of a string
    of decimal digits, NaN for anything else. *)
Fixpoint digits_value (s : string) (acc : Z) : option Z :=
  match s with
  | EmptyString => Some acc
  | String c t =>
      let n := Z.of_nat (nat_of_ascii c) in
      if (48 <=? n) && (n <=? 57) then digits_value t (10 * acc + (n - 48))
      else None
  end.

Definition parseInt (s : string) : option Z :=
  match s with
  | EmptyString => None
  | _ => digits_value s 0
  end.

Definition chiefs : ESPNCompetitor := mkCompetitor "home" (Some "Chiefs") (Some "47").

Definition eagles : ESPNCompetitor := mkCompetitor "away" (Some "Eagles") (Some "23").

Definition ended : ESPNStatus :=
  mkStatus (Some 4) (Some "STATUS_FINAL") (Some "Final") (Some true).

Definition regular_game : ESPNEvent :=
  mkEvent (Some "Bears at Packers") (Some "Regular Season")
    (Some [Some (mkCompetition (Some ended) (Some [Some chiefs; Some eagles]))]).

Definition super_bowl : ESPNEvent :=
  mkEvent (Some "Super Bowl LIX") (Some "Postseason")
    (Some [Some (mkCompetition (Some ended) (Some [Some eagles; Some chiefs]))]).

End Board.

(** ** Observations on a response *)

(** The run reached the contests: the response is [processed]. *)
Definition processed_run (r : HttpResponse) : bool :=
  match r with
  | run_response (processed_response _ _ _ _) => true
  | _ => false
  end.

(** The response says that the game is finished. *)
Definition finishes (r : HttpResponse) : bool :=
  match r with
  | run_response r => marks_finished r
  | _ => false
  end.




(** ** Observations on the writes of one call *)



(** The price of a square is 19.99. *)
Module Cents.

Definition contest : ContestRow.t :=
  ContestRow.mk "c1" "Office pool" "office-pool" "u1" "Chiefs" "Eagles"
    (Some [7; 3; 0; 1; 2; 4; 5; 6; 8; 9])
    (Some [9; 8; 3; 0; 1; 2; 4; 5; 6; 7])
    (Double.decimal 1999 100) (Some 25) (Some 25) None (Some 25) "in_progress".

(** The price of a square is 1.10 and the payouts are 20, 20, 20 and 40. *)
Definition uneven : ContestRow.t :=
  ContestRow.mk "c2" "Small pool" "small-pool" "u1" "Chiefs" "Eagles"
    None None (Double.decimal 110 100) (Some 20) (Some 20) (Some 20) (Some 40)
    "open".

End Cents.

(** * Properties *)

Unset Implicit Arguments.

(** ** Array lookup *)

Section IndexOf.

Lemma indexOf_from_absent (l : list Z) (x i : Z) :
  ~ In x l -> JS.indexOf_from l x i = -1.
Proof.
  revert i; induction l as [|y t IH]; intros i Hn; simpl.
  - reflexivity.
  - destruct (Z.eqb_spec y x) as [->|Hne].
    + exfalso; apply Hn; now left.
    + apply IH; intro Hin; apply Hn; now right.
Qed.

Lemma indexOf_from_present (l : list Z) (x i : Z) :
  In x l -> 0 <= i ->
  let j := JS.indexOf_from l x i in
  i <= j
  /\ nth_error l (Z.to_nat (j - i)) = Some x
  /\ forall k, i <= k < j -> nth_error l (Z.to_nat (k - i)) <> Some x.
Proof.
  revert i; induction l as [|y t IH]; intros i Hin Hi; simpl in *.
  - contradiction.
  - destruct (Z.eqb_spec y x) as [->|Hne].
    + repeat split; try lia.
      replace (i - i) with 0 by lia; reflexivity.
    + destruct Hin as [Heq|Hin]; [congruence|].
      destruct (IH (i + 1) Hin ltac:(lia)) as (Hle & Hnth & Hmin).
      set (j := JS.indexOf_from t x (i + 1)) in *.
      repeat split; try lia.
      * replace (Z.to_nat (j - i)) with (S (Z.to_nat (j - (i + 1)))) by lia.
        exact Hnth.
      * intros k Hk.
        destruct (Z.eq_dec k i) as [->|Hki].
        -- replace (i - i) with 0 by lia; simpl; congruence.
        -- replace (Z.to_nat (k - i)) with (S (Z.to_nat (k - (i + 1)))) by lia.
           apply Hmin; lia.
Qed.

Lemma indexOf_spec (l : list Z) (x : Z) :
  (In x l /\ first_position l x (JS.indexOf l x))
  \/ (~ In x l /\ JS.indexOf l x = -1).
Proof.
  destruct (in_dec Z.eq_dec x l) as [Hin|Hn].
  - left; split; [exact Hin|].
    destruct (indexOf_from_present l x 0 Hin ltac:(lia)) as (Hle & Hnth & Hmin).
    unfold JS.indexOf, first_position.
    rewrite Z.sub_0_r in Hnth.
    repeat split; try assumption.
    intros k Hk; specialize (Hmin k Hk); now rewrite Z.sub_0_r in Hmin.
  - right; split; [exact Hn|]. now apply indexOf_from_absent.
Qed.

Lemma indexOf_found_iff (l : list Z) (x : Z) :
  JS.indexOf l x <> -1 <-> In x l.
Proof.
  destruct (indexOf_spec l x) as [[Hin (H0 & _)]|[Hn Heq]]; split; intros;
    try assumption; try lia; try contradiction.
Qed.

End IndexOf.

(** The remainder of JavaScript keeps the sign of the score; on a score that
    is not negative it is the decimal last digit. *)
Lemma lastDigit_sign (score : Z) :
  lastDigit score = Z.sgn score * (Z.abs score mod 10).
Proof.
  unfold lastDigit. rewrite Z.rem_mod by lia. reflexivity.
Qed.

Lemma lastDigit_nonneg (score : Z) :
  0 <= score -> lastDigit score = score mod 10 /\ 0 <= lastDigit score <= 9.
Proof.
  intros H. unfold lastDigit. rewrite Z.rem_mod_nonneg by lia.
  split; [reflexivity|]. pose proof (Z.mod_pos_bound score 10 ltac:(lia)); lia.
Qed.

Lemma find_square_at (r c : Z) (squares : list SquareRow.t) (sq : SquareRow.t) :
  find (square_at r c) squares = Some sq ->
  In sq squares /\ SquareRow.row_index sq = r /\ SquareRow.col_index sq = c.
Proof.
  intros H. apply find_some in H. destruct H as [Hin Hat].
  unfold square_at in Hat. apply andb_true_iff in Hat.
  destruct Hat as [Hr Hc]. apply Z.eqb_eq in Hr, Hc. auto.
Qed.

(** ** Winner selection *)

(** C3. With both assignments present, the digits are the remainders of the
    scores by 10 (score mod 10 for a score that is not negative; in general
    the decimal last digit carrying the sign of the score);
    the winning row index is the first position of [row_numbers] holding the
    home digit and the winning column index the first position of
    [col_numbers] holding the away digit; when both are found the winning
    square is the contest's square at that row and column, and when a digit
    is not found, or an assignment is absent, there is no winner. *)
Theorem winner_selection_digit_matching
    (rn cn : list Z) (squares : list SquareRow.t) (homeScore awayScore : Z) :
  let sel := processQuarter_select (Some rn) (Some cn) squares homeScore awayScore in
  let homeLastDigit := lastDigit homeScore in
  let awayLastDigit := lastDigit awayScore in
  homeLastDigit = Z.sgn homeScore * (Z.abs homeScore mod 10)
  /\ awayLastDigit = Z.sgn awayScore * (Z.abs awayScore mod 10)
  /\ (0 <= homeScore -> homeLastDigit = homeScore mod 10)
  /\ (0 <= awayScore -> awayLastDigit = awayScore mod 10)
  /\ ((In homeLastDigit rn /\ In awayLastDigit cn
       /\ first_position rn homeLastDigit (winningRowIndex sel)
       /\ first_position cn awayLastDigit (winningColIndex sel)
       /\ winningSquare sel
          = find (fun sq => (SquareRow.row_index sq =? winningRowIndex sel)
                            && (SquareRow.col_index sq =? winningColIndex sel))
                 squares)
      \/ ((~ In homeLastDigit rn \/ ~ In awayLastDigit cn)
          /\ (winningRowIndex sel = -1 \/ winningColIndex sel = -1)
          /\ winningSquare sel = None))
  /\ winningSquare (processQuarter_select None (Some cn) squares homeScore awayScore) = None
  /\ winningSquare (processQuarter_select (Some rn) None squares homeScore awayScore) = None
  /\ winningSquare (processQuarter_select None None squares homeScore awayScore) = None.
Proof.
  intros sel hd ad.
  split; [apply lastDigit_sign|]. split; [apply lastDigit_sign|].
  split; [intros H; now apply lastDigit_nonneg|].
  split; [intros H; now apply lastDigit_nonneg|].
  split.
  - subst sel. unfold processQuarter_select; simpl. fold hd ad.
    destruct (indexOf_spec rn hd) as [[Hr Hfr]|[Hr Her]];
      destruct (indexOf_spec cn ad) as [[Hc Hfc]|[Hc Hec]].
    + left. repeat split; try assumption; try apply Hfr; try apply Hfc.
      destruct Hfr as (H0 & _), Hfc as (H1 & _).
      destruct (Z.eqb_spec (JS.indexOf rn hd) (-1)); [lia|].
      destruct (Z.eqb_spec (JS.indexOf cn ad) (-1)); [lia|].
      reflexivity.
    + right. rewrite Hec. repeat split; auto.
      now rewrite andb_false_r.
    + right. rewrite Her. repeat split; auto.
    + right. rewrite Her. repeat split; auto.
  - unfold processQuarter_select; simpl.
    repeat split; try reflexivity.
    now rewrite andb_false_r.
Qed.

Lemma winner_selection_digit_matching_witness :
  lastDigit 47 = 47 mod 10
  /\ lastDigit 23 = 23 mod 10
  /\ winningSquare
       (processQuarter_select (Some [7; 3; 0; 1; 2; 4; 5; 6; 8; 9])
          (Some [9; 8; 3; 0; 1; 2; 4; 5; 6; 7])
          [Demo.claimed; Demo.unclaimed] 47 23)
     <> None.
Proof.
  destruct (winner_selection_digit_matching [7; 3; 0; 1; 2; 4; 5; 6; 8; 9]
              [9; 8; 3; 0; 1; 2; 4; 5; 6; 7] [Demo.claimed; Demo.unclaimed] 47 23)
    as (_ & _ & Hh & Ha & Hsel & _).
  split; [apply Hh; discriminate|]. split; [apply Ha; discriminate|].
  destruct Hsel as [(_ & _ & _ & _ & ->)|(_ & _ & Hnone)]; discriminate.
Defined.

Example digit_matching_example :
  let sel := processQuarter_select (Some [7; 3; 0; 1; 2; 4; 5; 6; 8; 9])
               (Some [9; 8; 3; 0; 1; 2; 4; 5; 6; 7]) [] 47 23 in
  winningRowIndex sel = 0 /\ winningColIndex sel = 2.
Proof. split; reflexivity. Qed.

(** The squares the two paths fetch are the same rows of the same table. *)
Lemma saveScores_loop_winners (senv : SaveEnv) (contest : ContestRow.t)
    (rn cn : list Z) (scores : list ScoreInput) :
  ContestRow.row_numbers contest = Some rn ->
  ContestRow.col_numbers contest = Some cn ->
  forall (w w' : World) (acc winners : list WinnerInfo),
    saveScores_loop senv w (ContestRow.id contest) rn cn
      (filter (fun sq => String.eqb (SquareRow.contest_id sq) (ContestRow.id contest))
         (squares w))
      scores acc = (inr winners, w') ->
    winners = (acc ++ map (pipeline_winner_info w contest) scores)%list
    /\ squares w' = squares w.
Proof.
  intros Hrn Hcn. induction scores as [|score rest IH]; intros w w' acc winners; cbn.
  - intros [= <- <-]. split; [now rewrite app_nil_r|reflexivity].
  - destruct (score_upsert_error senv (input_quarter score)); [discriminate|].
    intros H.
    match type of H with
    | saveScores_loop _ ?w1 _ _ _ _ _ ?acc1 = _ =>
        destruct (IH w1 w' acc1 winners H) as [Hw Hs]
    end.
    cbn [squares upsert_score] in Hw, Hs. split; [|exact Hs].
    rewrite Hw, <- app_assoc. cbn.
    unfold pipeline_winner_info at 2. rewrite Hrn, Hcn. reflexivity.
Qed.

(** C4. On the same assignments, squares and scores the selection of the
    manual score entry is the selection of the automated pipeline: same
    winning row index, same winning column index, same winning square and
    same recorded square id. Without an assignment the pipeline selects no
    winner and the manual action answers with its error, so it selects none
    either. Whenever [saveScores] answers with winners, they are, score by
    score, the squares [processQuarter_select] picks for the contest. *)
Theorem winner_selection_paths_agree
    (rn cn : list Z) (picked : list SquareRow.t) (homeScore awayScore : Z) :
  let manual := saveScores_select rn cn picked homeScore awayScore in
  let auto := processQuarter_select (Some rn) (Some cn) picked homeScore awayScore in
  winningRowIndex manual = winningRowIndex auto
  /\ winningColIndex manual = winningColIndex auto
  /\ winningSquare manual = winningSquare auto
  /\ square_id_or_null (winningSquare manual)
     = square_id_or_null (winningSquare auto)
  /\ (forall senv w contestId scores,
        (forall contest,
            JS.single (filter (fun c => String.eqb (ContestRow.id c) contestId)
                         (contests_table senv)) = Some contest ->
            ContestRow.row_numbers contest = None
            \/ ContestRow.col_numbers contest = None ->
            (exists msg, fst (saveScores senv w contestId scores) = inl msg)
            /\ forall h a,
                 winningSquare
                   (processQuarter_select (ContestRow.row_numbers contest)
                      (ContestRow.col_numbers contest) picked h a) = None)
        /\ (forall winners,
               fst (saveScores senv w contestId scores) = inr winners ->
               exists contest,
                 JS.single (filter (fun c => String.eqb (ContestRow.id c) contestId)
                              (contests_table senv)) = Some contest
                 /\ ContestRow.id contest = contestId
                 /\ winners = map (pipeline_winner_info w contest) scores)).
Proof.
  intros manual auto.
  repeat (split; [reflexivity|]).
  intros senv w contestId scores. split.
  - intros contest Hfound Hnull. split.
    + unfold saveScores. rewrite Hfound.
      destruct (session_user senv); [|eexists; reflexivity].
      destruct (negb (String.eqb (ContestRow.owner_id contest) s));
        [eexists; reflexivity|].
      destruct (negb (String.eqb (ContestRow.status contest) "in_progress"));
        [eexists; reflexivity|].
      destruct Hnull as [-> | ->]; [eexists; reflexivity|].
      destruct (ContestRow.row_numbers contest); eexists; reflexivity.
    + intros h a. unfold processQuarter_select.
      destruct Hnull as [-> | ->]; cbn; [reflexivity|].
      now rewrite andb_false_r.
  - intros winners. unfold saveScores.
    destruct (session_user senv) as [user|]; [|discriminate].
    destruct (JS.single _) as [contest|] eqn:Hfound; [|discriminate].
    destruct (negb (String.eqb (ContestRow.owner_id contest) user)); [discriminate|].
    destruct (negb (String.eqb (ContestRow.status contest) "in_progress"));
      [discriminate|].
    destruct (ContestRow.row_numbers contest) as [rn'|] eqn:Hrn; [|discriminate].
    destruct (ContestRow.col_numbers contest) as [cn'|] eqn:Hcn; [|discriminate].
    destruct (save_squares_error senv); [discriminate|].
    assert (Hid : ContestRow.id contest = contestId).
    { unfold JS.single in Hfound.
      destruct (filter _ (contests_table senv)) as [|c0 [|c1 t]] eqn:Hf;
        try discriminate.
      injection Hfound as ->.
      assert (Hin : In contest (filter (fun c => String.eqb (ContestRow.id c) contestId)
                                  (contests_table senv)))
        by (rewrite Hf; now left).
      apply filter_In in Hin. destruct Hin as [_ Hin].
      now apply String.eqb_eq. }
    intros Hloop. exists contest. split; [reflexivity|]. split; [exact Hid|].
    subst contestId.
    destruct (saveScores_loop senv w (ContestRow.id contest) rn' cn' _ scores [])
      as [out w'] eqn:Hrun.
    cbn [fst] in Hloop. subst out.
    destruct (saveScores_loop_winners senv contest rn' cn' scores Hrn Hcn
                w w' [] winners Hrun) as [-> _].
    reflexivity.
Qed.

Lemma winner_selection_paths_agree_witness :
  fst (saveScores Demo.owner_session Demo.fresh "c1"
         [mkScoreInput "q1" 47 23; mkScoreInput "q2" 13 9])
  = inr (map (pipeline_winner_info Demo.fresh Demo.contest)
           [mkScoreInput "q1" 47 23; mkScoreInput "q2" 13 9]).
Proof.
  destruct (winner_selection_paths_agree [] [] [] 0 0) as (_ & _ & _ & _ & Hpath).
  destruct (Hpath Demo.owner_session Demo.fresh "c1"
              [mkScoreInput "q1" 47 23; mkScoreInput "q2" 13 9]) as [_ Hwin].
  destruct (Hwin _ eq_refl) as (contest & Hfound & _ & Heq).
  injection Hfound as <-. rewrite <- Heq. reflexivity.
Defined.

Example manual_entry_finds_the_claimed_square :
  fst (saveScores Demo.owner_session Demo.fresh "c1" [mkScoreInput "q1" 47 23])
  = inr [mkWinnerInfo "q1" 47 23 (Some "s02") (Some "Ann Lee")
           (Some "ann@example.org")].
Proof. reflexivity. Qed.

(** ** Quarter resolution *)

Lemma period_loop_table (period : Z) :
  period_loop (Z.to_nat (Z.min period 4)) 1 (Z.min period 4) []
  = flat_map ResolverSpec.quarter_of_period
      (ResolverSpec.periods_upto (Z.min period 4)).
Proof.
  assert (H : Z.min period 4 <= 0 \/ Z.min period 4 = 1 \/ Z.min period 4 = 2
              \/ Z.min period 4 = 3 \/ Z.min period 4 = 4) by lia.
  unfold ResolverSpec.periods_upto.
  destruct H as [H|[H|[H|[H|H]]]]; try (rewrite H; reflexivity).
  replace (Z.to_nat (Z.min period 4)) with 0%nat by lia. reflexivity.
Qed.

Lemma serve_quarters_idle
    (oracle : string -> string -> Env) (goracle : string -> GameEnv)
    (contests_fetch : Fetch (list ContestRow.t)) (manualQuarter : option string)
    (espn : EspnScores) (w : World) :
  quarters_of (quartersToProcess manualQuarter (statusName espn) (completed espn)
                 (period espn)) = [] ->
  snd (serve_quarters oracle goracle contests_fetch manualQuarter espn w) = w.
Proof.
  unfold serve_quarters.
  destruct (quartersToProcess _ _ _ _) as [qs|]; simpl; intros H.
  - subst qs. reflexivity.
  - reflexivity.
Qed.

(** C5. The block that fills [quartersToProcess] computes the decision
    table: a supplied manual quarter alone; else all four quarters in the
    order q1, q2, q3, final when the status is final or the game completed;
    else, at an end of period or at halftime, the quarters of the periods 1
    to min(period, 4) in ascending order; else nothing. Whenever the table
    gives no quarter the handler leaves the store and the transport
    untouched. *)
Theorem quarter_resolution_table
    (manualQuarter : option string) (status : string) (done : bool) (p : Z) :
  quarters_of (quartersToProcess manualQuarter status done p)
  = ResolverSpec.resolveQuarters manualQuarter status done p
  /\ (quartersToProcess manualQuarter status done p = InProgress
      <-> JS.truthy manualQuarter = false
          /\ ResolverSpec.is_final status done = false
          /\ ResolverSpec.is_boundary status = false)
  /\ forall oracle goracle contests_fetch homeScore awayScore w,
       ResolverSpec.resolveQuarters manualQuarter status done p = [] ->
       snd (serve_quarters oracle goracle contests_fetch manualQuarter
              (mkEspn p status done homeScore awayScore) w) = w.
Proof.
  assert (Heq : quarters_of (quartersToProcess manualQuarter status done p)
                = ResolverSpec.resolveQuarters manualQuarter status done p).
  { unfold quartersToProcess, ResolverSpec.resolveQuarters, JS.or_null,
      ResolverSpec.is_final, ResolverSpec.is_boundary.
    destruct (JS.truthy manualQuarter) eqn:Hm.
    - destruct manualQuarter as [q|]; simpl in *; [|discriminate].
      destruct (String.eqb q EmptyString); [discriminate|reflexivity].
    - destruct (String.eqb status "STATUS_FINAL" || done); [reflexivity|].
      destruct (String.eqb status "STATUS_END_PERIOD"
                || String.eqb status "STATUS_HALFTIME"); [|reflexivity].
      simpl. apply period_loop_table. }
  split; [exact Heq|]. split.
  - unfold quartersToProcess, ResolverSpec.is_final, ResolverSpec.is_boundary.
    destruct (JS.truthy manualQuarter);
      destruct (String.eqb status "STATUS_FINAL" || done);
      destruct (String.eqb status "STATUS_END_PERIOD"
                || String.eqb status "STATUS_HALFTIME");
      split; intros H; try discriminate; try (repeat split; reflexivity);
      destruct H as (H1 & H2 & H3); discriminate.
  - intros oracle goracle cf hs as_ w Hnil.
    apply serve_quarters_idle. simpl. rewrite Heq. exact Hnil.
Qed.

Example quarter_sweep_on_missed_poll :
  quartersToProcess None "STATUS_END_PERIOD" false 3 = Process ["q1"; "q2"; "q3"].
Proof. reflexivity. Qed.

Example overtime_is_clamped :
  quartersToProcess None "STATUS_END_PERIOD" false 5
  = Process ["q1"; "q2"; "q3"; "final"].
Proof. reflexivity. Qed.

Example manual_override_precedence :
  quartersToProcess (Some "q2") "STATUS_IN_PROGRESS" false 1 = Process ["q2"].
Proof. reflexivity. Qed.

(** ** The quarter-results table *)

Section Table.

Lemma filter_map_commute {A : Type} (P : A -> bool) (f : A -> A) (l : list A) :
  (forall x, P (f x) = P x) -> filter P (map f l) = map f (filter P l).
Proof.
  intros HP. induction l as [|x t IH]; simpl; [reflexivity|].
  rewrite HP. destruct (P x); simpl; now rewrite IH.
Qed.

Lemma filter_map_frame {A : Type} (P : A -> bool) (f : A -> A) (l : list A) :
  (forall x, P (f x) = P x) -> (forall x, P x = true -> f x = x) ->
  filter P (map f l) = filter P l.
Proof.
  intros HP Hf. rewrite filter_map_commute by exact HP.
  rewrite <- (map_id (filter P l)) at 2.
  apply map_ext_in. intros x Hx. apply filter_In in Hx. now apply Hf.
Qed.

Lemma existsb_is_empty {A : Type} (P : A -> bool) (l : list A) :
  existsb P l = negb (is_empty (filter P l)).
Proof.
  induction l as [|x t IH]; simpl; [reflexivity|].
  destruct (P x); simpl; [reflexivity|exact IH].
Qed.

Lemma key_matches_columns (c q : string) (r r' : QuarterResult.row) :
  QuarterResult.contest_id (QuarterResult.columns r)
  = QuarterResult.contest_id (QuarterResult.columns r') ->
  QuarterResult.quarter (QuarterResult.columns r)
  = QuarterResult.quarter (QuarterResult.columns r') ->
  key_matches c q r = key_matches c q r'.
Proof. unfold key_matches. intros H1 H2. now rewrite H1, H2. Qed.


Lemma key_matches_true (c q : string) (r : QuarterResult.row) :
  key_matches c q r = true <->
  QuarterResult.contest_id (QuarterResult.columns r) = c
  /\ QuarterResult.quarter (QuarterResult.columns r) = q.
Proof.
  unfold key_matches. rewrite andb_true_iff, !String.eqb_eq. tauto.
Qed.






End Table.

(** ** One call of processQuarter *)

Section CallLemmas.

Variables (env : Env) (w : World) (contest : ContestRow.t) (quarter : string)
          (homeScore awayScore : Z).

Lemma processQuarter_idle :
  runs env w contest quarter = false ->
  snd (processQuarter env w contest quarter homeScore awayScore) = w
  /\ processed (fst (processQuarter env w contest quarter homeScore awayScore))
     = false.
Proof.
  unfold runs, processQuarter, fetch_squares.
  destruct (existing_flag QuarterResult.winner_email_sent _
            && existing_flag QuarterResult.owner_email_sent _); simpl;
    [intros _; split; reflexivity|].
  destruct (squares_error env); simpl; [intros _; split; reflexivity|].
  destruct (upsert_error env); simpl; [intros _; split; reflexivity|discriminate].
Qed.

Lemma runs_true :
  runs env w contest quarter = true ->
  existing_flag QuarterResult.winner_email_sent
    (select_existing w (ContestRow.id contest) quarter)
  && existing_flag QuarterResult.owner_email_sent
       (select_existing w (ContestRow.id contest) quarter) = false
  /\ squares_error env = None /\ upsert_error env = None.
Proof.
  unfold runs. rewrite !andb_true_iff, negb_true_iff.
  intros [[H1 H2] H3].
  destruct (squares_error env); [discriminate|].
  destruct (upsert_error env); [discriminate|]. auto.
Qed.

Lemma processQuarter_run :
  runs env w contest quarter = true ->
  processQuarter env w contest quarter homeScore awayScore
  = (mkProcessResult true None,
     run_world env w contest quarter homeScore awayScore).
Proof.
  intros H. apply runs_true in H. destruct H as (Hboth & Hsq & Hup).
  unfold processQuarter. rewrite Hboth. unfold fetch_squares. rewrite Hsq.
  cbn [error data]. rewrite Hup.
  unfold run_world, run_effects, winner_effects, owner_effects,
    final_winner_flag, final_owner_flag, sends_winner, sends_owner,
    existing_row, built_result, built_score, computed_winner, fetched_squares.
  set (win := winningSquare _).
  set (ex := select_existing _ _ _).
  clearbody win ex.
  unfold winner_step, owner_step.
  destruct (existing_flag QuarterResult.winner_email_sent ex);
    destruct (JS.truthy (claimant_or_null SquareRow.claimant_email win));
    destruct (existing_flag QuarterResult.owner_email_sent ex);
    destruct (JS.truthy (ownerEmail (owner env)));
    cbn [negb andb];
    unfold update_email_flags, upsert_score, upsert_result, send_email;
    cbn [squares quarter_results scores journal];
    rewrite <- ?app_assoc; reflexivity.
Qed.


(** The world a call leaves: that of a run, or the one it found. *)
Lemma call_world :
  snd (processQuarter env w contest quarter homeScore awayScore)
  = if runs env w contest quarter
    then run_world env w contest quarter homeScore awayScore
    else w.
Proof.
  destruct (runs env w contest quarter) eqn:E.
  - now rewrite processQuarter_run.
  - now apply processQuarter_idle.
Qed.

End CallLemmas.

(** ** Journal and rows after a call *)

Lemma skipn_length_app {A : Type} (l d : list A) :
  skipn (List.length l) (l ++ d) = d.
Proof. induction l as [|x t IH]; simpl; [reflexivity|exact IH]. Qed.

Lemma new_effects_app (w w' : World) (d : list Effect) :
  journal w' = (journal w ++ d)%list -> new_effects w w' = d.
Proof. unfold new_effects. intros ->. apply skipn_length_app. Qed.

Lemma new_effects_same (w : World) : new_effects w w = [].
Proof. apply new_effects_app. symmetry. apply app_nil_r. Qed.

Lemma attempts_app (k : EmailKind) (l d : list Effect) :
  attempts k (l ++ d) = (attempts k l + attempts k d)%nat.
Proof. unfold attempts. now rewrite filter_app, length_app. Qed.



Section CallEffects.

Variables (env : Env) (w : World) (contest : ContestRow.t) (quarter : string)
          (homeScore awayScore : Z).

Let after := snd (processQuarter env w contest quarter homeScore awayScore).

(** The effects of a call: those of a run, or none. *)
Lemma call_journal :
  journal after
  = (journal w
     ++ (if runs env w contest quarter
         then run_effects env w contest quarter homeScore awayScore
         else []))%list.
Proof.
  subst after. rewrite call_world.
  destruct (runs env w contest quarter); [reflexivity|].
  symmetry; apply app_nil_r.
Qed.











End CallEffects.

(** ** The flags across a call *)

Section CallFlags.

Variables (env : Env) (w : World) (contest : ContestRow.t) (quarter : string)
          (homeScore awayScore : Z).

Let cid := ContestRow.id contest.
Let call := processQuarter env w contest quarter homeScore awayScore.













End CallFlags.









(** ** Exact products and quotients of doubles *)

(** The double of a positive integer below 2^53, written out: the mantissa
    holds the integer shifted up to 53 bits. *)
Lemma digits_log2 (p : positive) :
  Zpos (digits2_pos p) = Z.log2 (Zpos p) + 1.
Proof.
  assert (H : forall q, digits2_pos q = Pos.size q).
  { induction q as [q IH|q IH|]; cbn; now rewrite ?IH. }
  rewrite H. destruct p; cbn; lia.
Qed.

Lemma iter_pos_nat {A : Type} (f : A -> A) (p : positive) (x : A) :
  iter_pos f p x = Nat.iter (Pos.to_nat p) f x.
Proof.
  revert x. induction p as [p IH|p IH|]; intros x; cbn [iter_pos].
  - rewrite !IH, Pos2Nat.inj_xI.
    replace (S (2 * Pos.to_nat p))%nat with (Pos.to_nat p + (Pos.to_nat p + 1))%nat
      by lia.
    rewrite !Nat.iter_add. reflexivity.
  - rewrite !IH, Pos2Nat.inj_xO.
    replace (2 * Pos.to_nat p)%nat with (Pos.to_nat p + Pos.to_nat p)%nat by lia.
    now rewrite Nat.iter_add.
  - reflexivity.
Qed.

Lemma shr_exact (n : nat) :
  forall M m : positive,
    Zpos M = Zpos m * 2 ^ Z.of_nat n ->
    Nat.iter n shr_1 (Build_shr_record (Zpos M) false false)
    = Build_shr_record (Zpos m) false false.
Proof.
  induction n as [|n IH]; intros M m H.
  - cbn in *. f_equal. lia.
  - rewrite Nat.iter_succ_r.
    rewrite Nat2Z.inj_succ, Z.pow_succ_r in H by lia.
    destruct M as [M|M|]; try lia.
    cbn [shr_1 orb]. apply IH. lia.
Qed.

(** Rounding a mantissa whose low bits are zero drops them. *)
Lemma round_exact (s : bool) (M m : positive) (e k : Z) :
  0 <= k ->
  Zpos M = Zpos m * 2 ^ k ->
  Z.log2 (Zpos m) = 52 ->
  -1074 <= e + k <= 971 ->
  binary_round_aux 53 1024 s (Zpos M) e loc_Exact = S754_finite s m (e + k).
Proof.
  intros Hk HM Hm He.
  assert (HdM : Zpos (digits2_pos M) = 53 + k).
  { rewrite digits_log2, HM, Z.log2_mul_pow2 by lia. lia. }
  assert (Hdm : Zpos (digits2_pos m) = 53) by (rewrite digits_log2; lia).
  unfold binary_round_aux, shr_fexp, fexp, emin.
  cbn [Zdigits2 shr_record_of_loc]. rewrite HdM.
  replace (Z.max (53 + k + e - 53) (3 - 1024 - 53) - e) with k by lia.
  assert (Hshr : shr (Build_shr_record (Zpos M) false false) e k
                 = (Build_shr_record (Zpos m) false false, e + k)).
  { unfold shr. destruct k as [|p|p]; [| |lia].
    - f_equal; [|lia]. f_equal. cbn in HM. lia.
    - f_equal. rewrite iter_pos_nat. apply shr_exact.
      now rewrite positive_nat_Z. }
  rewrite Hshr. cbn [shr_m loc_of_shr_record round_nearest_even Zdigits2].
  rewrite Hdm.
  replace (Z.max (53 + (e + k) - 53) (3 - 1024 - 53) - (e + k)) with 0 by lia.
  cbn [shr shr_m].
  replace (e + k <=? 1024 - 53) with true by (symmetry; apply Z.leb_le; lia).
  reflexivity.
Qed.

Lemma canon_mantissa (n : Z) :
  0 < n -> Z.log2 n <= 52 ->
  Zpos (Z.to_pos (n * 2 ^ (52 - Z.log2 n))) = n * 2 ^ (52 - Z.log2 n)
  /\ Z.log2 (n * 2 ^ (52 - Z.log2 n)) = 52.
Proof.
  intros Hn Hl.
  assert (0 < 2 ^ (52 - Z.log2 n)) by (apply Z.pow_pos_nonneg; lia).
  split.
  - apply Z2Pos.id. nia.
  - rewrite Z.log2_mul_pow2 by lia. lia.
Qed.

Lemma iter_xO (d n : positive) :
  Zpos (Pos.iter xO n d) = Zpos n * 2 ^ Zpos d.
Proof.
  induction d as [|d IH] using Pos.peano_ind.
  - cbn. lia.
  - rewrite Pos.iter_succ, Pos2Z.inj_xO, IH, Pos2Z.inj_succ, Z.pow_succ_r by lia.
    lia.
Qed.

Lemma of_Z_canon (n : Z) :
  0 < n -> Z.log2 n <= 52 -> Double.of_Z n = Double.canon false n.
Proof.
  intros Hn Hl. destruct n as [|p|p]; try lia.
  destruct (canon_mantissa (Zpos p) Hn Hl) as [Hm Hlog].
  unfold Double.of_Z, binary_normalize, binary_round, shl_align, fexp, emin , Double.canon.
  rewrite digits_log2.
  pose proof (Z.log2_nonneg (Zpos p)) as Hl0.
  set (l := Z.log2 (Zpos p)) in *.
  replace (Z.max (l + 1 + 0 - 53) (3 - 1024 - 53) - 0) with (l - 52) by lia.
  replace (Z.max (l + 1 + 0 - 53) (3 - 1024 - 53)) with (l - 52) by lia.
  destruct (l - 52) as [|d|d] eqn:Hd; try lia.
  - replace (52 - l) with 0 in * by lia. rewrite Z.pow_0_r, Z.mul_1_r in *.
    rewrite (round_exact false p (Z.to_pos (Zpos p)) 0 0);
      [reflexivity | lia | rewrite Z.pow_0_r; cbn; lia | exact Hlog | lia].
  - rewrite (round_exact false (Pos.iter xO p d)
               (Z.to_pos (Zpos p * 2 ^ (52 - l))) (Z.neg d) 0);
      [ | lia | | rewrite Hm; exact Hlog | lia].
    + f_equal; lia.
    + rewrite Hm, iter_xO, Z.pow_0_r. replace (52 - l) with (Zpos d) by lia. lia.
Qed.

Lemma sizes_mul (a b : Z) :
  0 < a -> 0 < b ->
  Z.log2 a + Z.log2 b <= Z.log2 (a * b) <= Z.log2 a + Z.log2 b + 1.
Proof.
  intros Ha Hb. split.
  - now apply Z.log2_mul_below.
  - apply Z.log2_mul_above; lia.
Qed.

Lemma pow2_split (x y : Z) : 0 <= x -> 0 <= y -> 2 ^ (x + y) = 2 ^ x * 2 ^ y.
Proof. intros. now apply Z.pow_add_r. Qed.

(** The product of two integers is exact when it is below 2^53. *)
Lemma mul_canon (sa sb : bool) (a b : Z) :
  0 < a -> 0 < b -> Z.log2 (a * b) <= 52 ->
  Double.mul (Double.canon sa a) (Double.canon sb b) = Double.canon (xorb sa sb) (a * b).
Proof.
  intros Ha Hb Hab.
  pose proof (sizes_mul a b Ha Hb) as Hs.
  pose proof (Z.log2_nonneg a) as Hla. pose proof (Z.log2_nonneg b) as Hlb.
  destruct (canon_mantissa a Ha ltac:(lia)) as [Hma _].
  destruct (canon_mantissa b Hb ltac:(lia)) as [Hmb _].
  destruct (canon_mantissa (a * b) ltac:(lia) Hab) as [Hmab Hlab].
  unfold Double.mul , Double.canon. cbn [SFmul].
  set (la := Z.log2 a) in *. set (lb := Z.log2 b) in *.
  set (lab := Z.log2 (a * b)) in *.
  rewrite (round_exact (xorb sa sb) _ (Z.to_pos (a * b * 2 ^ (52 - lab)))
             (la - 52 + (lb - 52)) (52 + lab - la - lb)).
  - f_equal; lia.
  - lia.
  - rewrite Pos2Z.inj_mul, Hma, Hmb, Hmab.
    replace (52 - la) with ((52 - lab) + (lab - la)) by lia.
    replace (52 + lab - la - lb) with ((lab - la) + (52 - lb)) by lia.
    assert (0 <= lab - la) by lia.
    rewrite !pow2_split by lia. ring.
  - now rewrite Hmab.
  - lia.
Qed.

Lemma div_eucl_exact (q m : Z) : 0 < m -> Z.div_eucl (q * m) m = (q, 0).
Proof.
  intros Hm. pose proof (Z.div_mul q m ltac:(lia)) as Hd.
  pose proof (Z.mod_mul q m ltac:(lia)) as Hr.
  unfold Z.div, Z.modulo in *. destruct (Z.div_eucl (q * m) m). now subst.
Qed.

Lemma new_location_exact (m : Z) : new_location m 0 = loc_Exact.
Proof. unfold new_location. now destruct (Z.even m). Qed.

(** The quotient of a multiple by its factor is exact. *)
Lemma div_canon (sa sb : bool) (k c : Z) :
  0 < k -> 0 < c -> Z.log2 (k * c) <= 52 ->
  Double.div (Double.canon sa (k * c)) (Double.canon sb c) = Double.canon (xorb sa sb) k.
Proof.
  intros Hk Hc Hkc.
  pose proof (sizes_mul k c Hk Hc) as Hs.
  pose proof (Z.log2_nonneg k) as Hlk. pose proof (Z.log2_nonneg c) as Hlc.
  destruct (canon_mantissa (k * c) ltac:(lia) Hkc) as [Hm1 Hl1].
  destruct (canon_mantissa c Hc ltac:(lia)) as [Hm2 Hl2].
  destruct (canon_mantissa k Hk ltac:(lia)) as [Hmk Hlk'].
  unfold Double.div , Double.canon. cbn [SFdiv]. unfold SFdiv_core_binary, fexp, emin.
  cbn [Zdigits2]. rewrite !digits_log2, Hm1, Hm2, Hl1, Hl2.
  set (lk := Z.log2 k) in *. set (lc := Z.log2 c) in *.
  set (l1 := Z.log2 (k * c)) in *.
  replace (Z.min (Z.max (52 + 1 + (l1 - 52) - (52 + 1 + (lc - 52)) - 53)
                    (3 - 1024 - 53)) (l1 - 52 - (lc - 52)))
    with (l1 - lc - 53) by lia.
  replace (l1 - 52 - (lc - 52) - (l1 - lc - 53)) with 53 by lia.
  rewrite Z.shiftl_mul_pow2 by lia.
  replace (k * c * 2 ^ (52 - l1) * 2 ^ 53)
    with (k * 2 ^ (53 + lc - l1) * (c * 2 ^ (52 - lc))).
  2:{ assert (E1 : 2 ^ (53 + lc - l1) = 2 ^ (52 - l1) * 2 ^ (1 + lc))
        by (rewrite <- pow2_split by lia; f_equal; lia).
      assert (E2 : 2 ^ 53 = 2 ^ (1 + lc) * 2 ^ (52 - lc))
        by (rewrite <- pow2_split by lia; f_equal; lia).
      rewrite E1, E2. ring. }
  assert (0 < 2 ^ (52 - lc)) by (apply Z.pow_pos_nonneg; lia).
  assert (0 < 2 ^ (53 + lc - l1)) by (apply Z.pow_pos_nonneg; lia).
  rewrite div_eucl_exact by nia. rewrite new_location_exact.
  assert (Hq : k * 2 ^ (53 + lc - l1)
               = Zpos (Z.to_pos (k * 2 ^ (53 + lc - l1))))
    by (symmetry; apply Z2Pos.id; nia).
  rewrite Hq.
  rewrite (round_exact (xorb sa sb) _ (Z.to_pos (k * 2 ^ (52 - lk)))
             (l1 - lc - 53) (1 + lc + lk - l1)).
  - f_equal; lia.
  - lia.
  - rewrite <- Hq, Hmk.
    replace (53 + lc - l1) with ((52 - lk) + (1 + lc + lk - l1)) by lia.
    rewrite pow2_split by lia. ring.
  - now rewrite Hmk.
  - lia.
Qed.

Lemma log2_below (n : Z) : 0 < n -> n < 2 ^ 53 -> Z.log2 n <= 52.
Proof. intros Hn Hb. apply Z.log2_lt_pow2 in Hb; lia. Qed.

(** ** Prize and payout *)

(** On a whole price the three operations of [getPrizeAmount] are exact. *)
Lemma getPrizeAmount_whole (contest : ContestRow.t) (quarter : string) (p : Z) :
  ContestRow.square_price contest = Double.of_Z p ->
  0 <= p ->
  p * 10000 < 2 ^ 53 ->
  0 <= getPayoutPercent contest quarter <= 100 ->
  getPrizeAmount contest quarter
  = Double.of_Z (p * getPayoutPercent contest quarter).
Proof.
  unfold getPrizeAmount. cbv zeta.
  set (percent := getPayoutPercent contest quarter).
  intros -> Hp Hb Hpc.
  assert (Hhundred : Double.of_Z 100 = Double.canon false 100) by reflexivity.
  destruct (Z.eq_dec percent 0) as [->|Hc0].
  { rewrite Z.mul_0_r. destruct (Z.eq_dec p 0) as [->|Hp0]; [reflexivity|].
    rewrite (of_Z_canon p), Hhundred by (try apply log2_below; lia).
    rewrite mul_canon by (try apply log2_below; lia).
    reflexivity. }
  rewrite (of_Z_canon percent) by (try apply log2_below; lia).
  destruct (Z.eq_dec p 0) as [->|Hp0]; [reflexivity|].
  rewrite (of_Z_canon p), Hhundred, (of_Z_canon (p * percent))
    by (try apply log2_below; nia).
  rewrite mul_canon by (try apply log2_below; nia).
  rewrite mul_canon by (try apply log2_below; nia).
  replace (p * 100 * percent) with (p * percent * 100) by ring.
  rewrite div_canon by (try apply log2_below; nia).
  reflexivity.
Qed.







(** ** The contest loop *)

Section Frame.

Variable x : string.

Let about (r : QuarterResult.row) : bool :=
  String.eqb (QuarterResult.contest_id (QuarterResult.columns r)) x.

Lemma about_key (c q : string) (r : QuarterResult.row) :
  c <> x -> key_matches c q r = true -> about r = false.
Proof.
  intros Hne H. apply key_matches_true in H. destruct H as [H _].
  unfold about. rewrite H. now apply String.eqb_neq.
Qed.

Lemma rows_of_upsert (rows : list QuarterResult.row) (result : QuarterResult.t) :
  QuarterResult.contest_id result <> x ->
  filter about (upsert_rows rows result) = filter about rows.
Proof.
  intros Hne. unfold upsert_rows.
  assert (Hnew : forall a b, about (QuarterResult.mkrow result a b) = false)
    by (intros; unfold about; cbn; now apply String.eqb_neq).
  destruct (existsb _ rows).
  - apply filter_map_frame.
    + intros r. destruct (key_matches _ _ r) eqn:Hr; [|reflexivity].
      rewrite Hnew. symmetry. exact (about_key _ _ _ Hne Hr).
    + intros r Hr. destruct (key_matches _ _ r) eqn:Hh; [|reflexivity].
      pose proof (about_key _ _ _ Hne Hh). congruence.
  - rewrite filter_app; simpl. rewrite Hnew. apply app_nil_r.
Qed.

Lemma rows_of_update (rows : list QuarterResult.row) (c q : string)
    (ws os : bool) (t : Z) :
  c <> x ->
  filter about (update_rows rows c q ws os t) = filter about rows.
Proof.
  intros Hne. unfold update_rows. apply filter_map_frame.
  - intros r. destruct (key_matches c q r); reflexivity.
  - intros r Hr. destruct (key_matches c q r) eqn:Hh; [|reflexivity].
    pose proof (about_key _ _ _ Hne Hh). congruence.
Qed.

Lemma untouched_refl (w : World) : untouched x w w.
Proof.
  split; [reflexivity|]. exists []. split; [now rewrite app_nil_r|constructor].
Qed.

Lemma untouched_trans (w1 w2 w3 : World) :
  untouched x w1 w2 -> untouched x w2 w3 -> untouched x w1 w3.
Proof.
  intros [Hr1 (d1 & Hj1 & Hd1)] [Hr2 (d2 & Hj2 & Hd2)]. split.
  - congruence.
  - exists (d1 ++ d2)%list. split.
    + rewrite Hj2, Hj1. now rewrite app_assoc.
    + apply Forall_app. auto.
Qed.

Lemma untouched_log (w : World) (entry : LogEntry) :
  (forall c, log_contestId entry = Some c -> c <> x) ->
  untouched x w (insert_log w entry).
Proof.
  intros H. split; [reflexivity|]. exists [InsertLog entry].
  split; [reflexivity|]. constructor; [|constructor].
  cbn. destruct (log_contestId entry) as [c|]; [|reflexivity].
  apply String.eqb_neq. now apply H.
Qed.

Lemma processQuarter_untouched (env : Env) (w : World) (contest : ContestRow.t)
    (quarter : string) (homeScore awayScore : Z) :
  ContestRow.id contest <> x ->
  untouched x w (snd (processQuarter env w contest quarter homeScore awayScore)).
Proof.
  intros Hne. destruct (runs env w contest quarter) eqn:E.
  - rewrite processQuarter_run by exact E. cbn [snd]. split.
    + unfold rows_of, run_world. cbn [quarter_results].
      fold about. rewrite rows_of_update by exact Hne.
      apply rows_of_upsert. exact Hne.
    + eexists. split; [reflexivity|].
      apply String.eqb_neq in Hne.
      unfold run_effects, winner_effects, owner_effects.
      repeat (apply Forall_app; split);
        repeat match goal with
               | |- Forall _ (if ?b then _ else _) => destruct b
               | |- Forall _ (_ :: _) => constructor
               | |- Forall _ [] => constructor
               end; cbn; try exact Hne; reflexivity.
  - destruct (processQuarter_idle env w contest quarter homeScore awayScore E)
      as [-> _].
    apply untouched_refl.
Qed.

Lemma process_quarters_untouched (oracle : string -> string -> Env)
    (contest : ContestRow.t) (homeScore awayScore : Z) (quarters : list string) :
  ContestRow.id contest <> x ->
  forall (w : World) (results : list ResultEntry),
    let out := process_quarters oracle w contest quarters homeScore awayScore
                 results in
    untouched x w (snd out) /\ entries_of x (fst out) = entries_of x results.
Proof.
  intros Hne. induction quarters as [|quarter rest IH]; intros w results; cbn.
  - split; [apply untouched_refl|reflexivity].
  - pose proof (processQuarter_untouched (oracle (ContestRow.id contest) quarter)
                  w contest quarter homeScore awayScore Hne) as Hq.
    destruct (processQuarter _ w contest quarter homeScore awayScore)
      as [result w1]. cbn [snd] in Hq.
    match goal with
    | |- context [process_quarters oracle ?w2 contest rest _ _ ?res] =>
        destruct (IH w2 res) as [Hu He];
        assert (Hstep : untouched x w1 w2)
    end.
    { destruct (JS.truthy (process_error result)).
      - apply untouched_log. cbn. intros c [= <-]. exact Hne.
      - destruct (processed result).
        + apply untouched_log. cbn. intros c [= <-]. exact Hne.
        + apply untouched_refl. }
    split.
    + eapply untouched_trans; [exact Hq|].
      eapply untouched_trans; [exact Hstep|exact Hu].
    + rewrite He. unfold entries_of. rewrite filter_app. cbn.
      apply String.eqb_neq in Hne. rewrite Hne. apply app_nil_r.
Qed.

Lemma process_contests_untouched (oracle : string -> string -> Env)
    (quarters : list string) (homeScore awayScore : Z)
    (contests : list ContestRow.t) :
  (forall c, In c contests -> ContestRow.id c = x -> numbers_missing c = true) ->
  forall (w : World) (results : list ResultEntry),
    let out := process_contests oracle w contests quarters homeScore awayScore
                 results in
    untouched x w (snd out) /\ entries_of x (fst out) = entries_of x results.
Proof.
  induction contests as [|contest rest IH]; intros Hall w results; cbn.
  - split; [apply untouched_refl|reflexivity].
  - destruct (numbers_missing contest) eqn:Hm.
    + apply IH. intros c Hc. apply Hall. now right.
    + assert (Hne : ContestRow.id contest <> x).
      { intros Heq. rewrite (Hall contest (or_introl eq_refl) Heq) in Hm.
        discriminate. }
      pose proof (process_quarters_untouched oracle contest homeScore awayScore
                    quarters Hne w results) as [Hu He].
      destruct (process_quarters oracle w contest quarters homeScore awayScore
                  results) as [results1 w1]. cbn [fst snd] in Hu, He.
      destruct (IH (fun c Hc => Hall c (or_intror Hc)) w1 results1) as [Hu' He'].
      split.
      * eapply untouched_trans; [exact Hu|exact Hu'].
      * now rewrite He'.
Qed.

End Frame.

Lemma process_contests_skip (oracle : string -> string -> Env)
    (quarters : list string) (homeScore awayScore : Z) (c : ContestRow.t)
    (before after : list ContestRow.t) :
  numbers_missing c = true ->
  forall (w : World) (results : list ResultEntry),
    process_contests oracle w (before ++ c :: after) quarters homeScore awayScore
      results
    = process_contests oracle w (before ++ after) quarters homeScore awayScore
        results.
Proof.
  intros Hm. induction before as [|b rest IH]; intros w results; cbn.
  - now rewrite Hm.
  - destruct (numbers_missing b); [apply IH|].
    destruct (process_quarters oracle w b quarters homeScore awayScore results).
    apply IH.
Qed.

(** ** The handler around the loop *)

Lemma mentions_reports (x : string) (e : Effect) :
  mentions x e = false -> reports_error x e = false.
Proof.
  destruct e; cbn; try reflexivity. intros ->. apply andb_false_r.
Qed.

Lemma processGameComplete_quiet (x : string) (genv : GameEnv) (w : World)
    (contest : ContestRow.t) :
  let w' := processGameComplete genv w contest in
  quarter_results w' = quarter_results w
  /\ exists d, journal w' = (journal w ++ d)%list
               /\ Forall (fun e => reports_error x e = false) d.
Proof.
  unfold processGameComplete.
  destruct (filter _ (quarter_results w)) as [|r t].
  - split; [reflexivity|]. exists []. split; [now rewrite app_nil_r|constructor].
  - destruct (negb (JS.truthy (ownerEmail (game_owner genv)))).
    + split; [reflexivity|]. exists []. split; [now rewrite app_nil_r|constructor].
    + split; [reflexivity|]. cbn [journal send_email].
      eexists. split; [now rewrite <- app_assoc|].
      repeat constructor.
Qed.

Lemma complete_contests_quiet (x : string) (goracle : string -> GameEnv)
    (contests : list ContestRow.t) :
  forall w : World,
    let w' := complete_contests goracle w contests in
    quarter_results w' = quarter_results w
    /\ exists d, journal w' = (journal w ++ d)%list
                 /\ Forall (fun e => reports_error x e = false) d.
Proof.
  induction contests as [|contest rest IH]; intros w; cbn.
  - split; [reflexivity|]. exists []. split; [now rewrite app_nil_r|constructor].
  - destruct (processGameComplete_quiet x (goracle (ContestRow.id contest)) w contest)
      as [Hr (d1 & Hj1 & Hd1)].
    match goal with
    | |- context [complete_contests goracle ?w2 rest] =>
        destruct (IH w2) as [Hr2 (d2 & Hj2 & Hd2)]
    end.
    split.
    + rewrite Hr2. cbn [quarter_results insert_log]. exact Hr.
    + eexists. split.
      * rewrite Hj2. cbn [journal insert_log]. rewrite Hj1.
        rewrite <- !app_assoc. reflexivity.
      * apply Forall_app. split; [exact Hd1|].
        apply Forall_app. split; [|exact Hd2].
        repeat constructor.
Qed.

(** C9. A contest of the eligible set whose row_numbers or col_numbers is
    null is skipped by the contest loop: the loop behaves exactly as on the
    list without that contest (same response entries, same world, same
    effects), so [processQuarter] is never called for it. Contest ids being
    keys (every listed contest with that id lacks its numbers), the loop
    pushes no entry for it, leaves the rows of its quarters as the store had
    them and has no effect that names it; and the response of the handler
    holds no entry for it, the run creates no row for it and logs no error
    about it. *)
Theorem contest_without_numbers_is_skipped
    (oracle : string -> string -> Env) (w : World) (contests : list ContestRow.t)
    (quarters : list string) (homeScore awayScore : Z) (c : ContestRow.t) :
  ContestRow.row_numbers c = None \/ ContestRow.col_numbers c = None ->
  let out := process_contests oracle w contests quarters homeScore awayScore [] in
  (forall before after,
      contests = (before ++ c :: after)%list ->
      out = process_contests oracle w (before ++ after) quarters homeScore
              awayScore [])
  /\ ((forall c', In c' contests -> ContestRow.id c' = ContestRow.id c ->
                  numbers_missing c' = true) ->
      (entries_of (ContestRow.id c) (fst out) = []
       /\ rows_of (ContestRow.id c) (snd out) = rows_of (ContestRow.id c) w
       /\ Forall (fun e => mentions (ContestRow.id c) e = false)
                 (new_effects w (snd out)))
      /\ forall goracle status done p,
          let run :=
            serve_contests oracle goracle (mkFetch (Some contests) None) quarters
              (mkEspn p status done homeScore awayScore) w in
          entries_of (ContestRow.id c) (response_results (fst run)) = []
          /\ rows_of (ContestRow.id c) (snd run) = rows_of (ContestRow.id c) w
          /\ Forall (fun e => reports_error (ContestRow.id c) e = false)
                    (new_effects w (snd run))).
Proof.
  intros Hnull out.
  assert (Hm : numbers_missing c = true).
  { unfold numbers_missing. destruct Hnull as [-> | ->]; [reflexivity|].
    now destruct (ContestRow.row_numbers c). }
  split.
  - intros before after ->. subst out. now apply process_contests_skip.
  - intros Hkeys.
    destruct (process_contests_untouched (ContestRow.id c) oracle quarters
                homeScore awayScore contests Hkeys w [])
      as [[Hrows (d & Hj & Hd)] He].
    fold out in Hrows, Hj, He.
    split.
    { repeat split; try assumption.
      now rewrite (new_effects_app _ _ _ Hj). }
    intros goracle status done p run. subst run. unfold serve_contests.
    destruct (is_empty quarters).
    { cbn. rewrite new_effects_same. repeat split; constructor. }
    cbn [error data].
    destruct (is_empty contests).
    { cbn [fst snd response_results].
      repeat split.
      rewrite (new_effects_app w
                 (insert_log w (mkLog "fetch_contests" "skipped" None None None))
                 [InsertLog (mkLog "fetch_contests" "skipped" None None None)]
                 eq_refl).
      repeat constructor. }
    cbn [espn_homeScore espn_awayScore statusName completed].
    fold out. destruct out as [results w1]. cbn [fst snd] in *.
    cbn [fst snd response_results].
    split; [exact He|].
    assert (Hq : Forall (fun e => reports_error (ContestRow.id c) e = false) d).
    { eapply Forall_impl; [|exact Hd]. intros e. apply mentions_reports. }
    destruct (String.eqb status "STATUS_FINAL" || done).
    + destruct (complete_contests_quiet (ContestRow.id c) goracle contests w1)
        as [Hr2 (d2 & Hj2 & Hd2)].
      split.
      * unfold rows_of in *. cbn [quarter_results]. rewrite Hr2. exact Hrows.
      * rewrite (new_effects_app w _ (d ++ d2 ++ [UpdateConfigGameFinished])).
        -- apply Forall_app. split; [exact Hq|].
           apply Forall_app. split; [exact Hd2|]. repeat constructor.
        -- cbn [journal]. rewrite Hj2, Hj. now rewrite <- !app_assoc.
    + split; [exact Hrows|].
      now rewrite (new_effects_app _ _ _ Hj).
Qed.

(** ** The statements at the demo contest *)

Example first_call_sends_both :
  let call := processQuarter Demo.all_well Demo.fresh Demo.contest "q1" 47 23 in
  fst call = mkProcessResult true None
  /\ attempts WinnerNotification (new_effects Demo.fresh (snd call)) = 1%nat
  /\ attempts OwnerQuarter (new_effects Demo.fresh (snd call)) = 1%nat
  /\ existing_flag QuarterResult.winner_email_sent
       (select_existing (snd call) "c1" "q1") = true
  /\ existing_flag QuarterResult.owner_email_sent
       (select_existing (snd call) "c1" "q1") = true.
Proof. repeat split; reflexivity. Qed.

Example retry_after_owner_refusal :
  let w1 := snd (processQuarter Demo.owner_refused Demo.fresh Demo.contest "q1" 47 23) in
  let w2 := snd (processQuarter Demo.all_well w1 Demo.contest "q1" 47 23) in
  existing_flag QuarterResult.owner_email_sent (select_existing w1 "c1" "q1") = false
  /\ attempts WinnerNotification (new_effects w1 w2) = 0%nat
  /\ attempts OwnerQuarter (new_effects w1 w2) = 1%nat
  /\ List.length (select_results w2 "c1" "q1") = 1%nat.
Proof. repeat split; reflexivity. Qed.

Example refused_upsert_records_nothing :
  processQuarter Demo.upsert_refused Demo.fresh Demo.contest "q1" 47 23
  = (mkProcessResult false (Some "Failed to upsert result: timeout"), Demo.fresh).
Proof. reflexivity. Qed.





Lemma quarter_resolution_table_witness :
  snd (serve_quarters Demo.oracle Demo.goracle
         (mkFetch (Some [Demo.contest]) None) None
         (mkEspn 2 "STATUS_IN_PROGRESS" false 14 7) Demo.fresh)
  = Demo.fresh.
Proof.
  apply (proj2 (proj2 (quarter_resolution_table None "STATUS_IN_PROGRESS" false 2))).
  reflexivity.
Defined.



Lemma contest_without_numbers_is_skipped_witness :
  process_contests Demo.oracle Demo.fresh [Demo.unnumbered; Demo.contest]
    ["q1"; "q2"] 47 23 []
  = process_contests Demo.oracle Demo.fresh [Demo.contest] ["q1"; "q2"] 47 23 []
  /\ entries_of "c0"
       (fst (process_contests Demo.oracle Demo.fresh
               [Demo.unnumbered; Demo.contest] ["q1"; "q2"] 47 23 [])) = [].
Proof.
  destruct (contest_without_numbers_is_skipped Demo.oracle Demo.fresh
              [Demo.unnumbered; Demo.contest] ["q1"; "q2"] 47 23 Demo.unnumbered
              (or_introl eq_refl)) as [Hskip Hclean].
  split.
  - apply (Hskip [] [Demo.contest]). reflexivity.
  - apply Hclean. intros c' [<-|[<-|[]]] Hid; [reflexivity|discriminate Hid].
Defined.

(** * Properties of the rest of the code *)

(** ** escapeHtml *)

Lemma string_app_assoc (x y z : string) : (x ++ y) ++ z = x ++ (y ++ z).
Proof. induction x as [|a t IH]; simpl; [reflexivity|]. now rewrite IH. Qed.

Lemma replace_all_app (c : Ascii.ascii) (r x y : string) :
  replace_all c r (x ++ y) = replace_all c r x ++ replace_all c r y.
Proof.
  induction x as [|a t IH]; simpl; [reflexivity|].
  destruct (Ascii.eqb a c); simpl; rewrite IH; [|reflexivity].
  symmetry. apply string_app_assoc.
Qed.

Lemma escapeHtml_cons (a : Ascii.ascii) (t : string) :
  escapeHtml (String a t) = escape_char a ++ escapeHtml t.
Proof.
  unfold escapeHtml, escape_char.
  change (String a t) with (String a EmptyString ++ t).
  rewrite !replace_all_app. f_equal.
  cbn [replace_all].
  destruct (Ascii.eqb a "&"%char) eqn:E1; [reflexivity|].
  cbn [replace_all]. destruct (Ascii.eqb a "<"%char) eqn:E2; [reflexivity|].
  cbn [replace_all]. destruct (Ascii.eqb a ">"%char) eqn:E3; [reflexivity|].
  cbn [replace_all]. destruct (Ascii.eqb a "034"%char) eqn:E4; [reflexivity|].
  cbn [replace_all]. destruct (Ascii.eqb a "'"%char) eqn:E5; reflexivity.
Qed.

Lemma escapeHtml_escape_each (s : string) : escapeHtml s = escape_each s.
Proof.
  induction s as [|a s IH]; [reflexivity|].
  rewrite escapeHtml_cons, IH. reflexivity.
Qed.

(** X1. The five replacements in sequence act as one pass that maps each
    character to its entity: the ampersand goes first, so the ampersands of
    the entities are never escaped again. Hence escaping distributes over
    concatenation. *)
Theorem escapeHtml_one_pass (s t : string) :
  escapeHtml s = escape_each s
  /\ escapeHtml (s ++ t) = escapeHtml s ++ escapeHtml t.
Proof.
  split; [apply escapeHtml_escape_each|]. rewrite !escapeHtml_escape_each.
  induction s as [|a s IH]; simpl; [reflexivity|].
  now rewrite IH, string_app_assoc.
Qed.

Lemma chars_app (x y : string) :
  list_ascii_of_string (x ++ y)
  = (list_ascii_of_string x ++ list_ascii_of_string y)%list.
Proof. induction x as [|a t IH]; simpl; [reflexivity|]. now rewrite IH. Qed.

Lemma string_length_app (x y : string) :
  String.length (x ++ y) = (String.length x + String.length y)%nat.
Proof. induction x as [|a t IH]; simpl; [reflexivity|]. now rewrite IH. Qed.

Lemma escape_char_cases (a : Ascii.ascii) :
  (html_special a = true
   /\ (escape_char a = "&amp;" \/ escape_char a = "&lt;" \/ escape_char a = "&gt;"
       \/ escape_char a = "&quot;" \/ escape_char a = "&#039;"))
  \/ (html_special a = false /\ escape_char a = String a EmptyString).
Proof.
  unfold html_special, escape_char.
  destruct (Ascii.eqb a "&"%char); [left; cbn; auto|].
  destruct (Ascii.eqb a "<"%char); [left; cbn; auto|].
  destruct (Ascii.eqb a ">"%char); [left; cbn; auto|].
  destruct (Ascii.eqb a "034"%char); [left; cbn; auto 6|].
  destruct (Ascii.eqb a "'"%char); [left; cbn; auto 6|].
  right. auto.
Qed.

Lemma markup_special (a : Ascii.ascii) :
  html_special a = false -> markup a = false.
Proof.
  unfold html_special, markup.
  destruct (Ascii.eqb a "&"%char); [discriminate|]. cbn. auto.
Qed.

(** X2. The output of [escapeHtml] holds none of the characters that open or
    close a tag or an attribute value: no less-than sign, no greater-than
    sign, no double quote and no single quote. *)
Theorem escapeHtml_no_markup (s : string) :
  Forall (fun a => markup a = false) (list_ascii_of_string (escapeHtml s)).
Proof.
  rewrite escapeHtml_escape_each.
  induction s as [|a t IH]; simpl; [constructor|].
  rewrite chars_app. apply Forall_app. split; [|exact IH].
  destruct (escape_char_cases a) as [[_ H]|[Hs ->]].
  - destruct H as [-> | [-> | [-> | [-> | ->]]]]; repeat constructor.
  - repeat constructor. now apply markup_special.
Qed.

Lemma escape_each_plain (s : string) : plain s -> escape_each s = s.
Proof.
  unfold plain. induction s as [|a t IH]; simpl; [reflexivity|].
  intros H. inversion H as [|? ? Ha Ht]; subst.
  destruct (escape_char_cases a) as [[Hs _]|[_ ->]]; [congruence|].
  simpl. now rewrite IH.
Qed.

Lemma escape_each_length (s : string) :
  (String.length s <= String.length (escape_each s))%nat
  /\ (String.length (escape_each s) = String.length s -> plain s).
Proof.
  unfold plain. induction s as [|a t [IHle IHeq]]; simpl.
  - split; [lia|]. constructor.
  - rewrite string_length_app.
    destruct (escape_char_cases a) as [[_ H]|[Hs ->]].
    + destruct H as [-> | [-> | [-> | [-> | ->]]]]; simpl; split; lia.
    + simpl. split; [lia|]. intros H. constructor; [exact Hs|].
      apply IHeq. lia.
Qed.

Lemma escape_each_injective (s1 : string) :
  forall s2, escape_each s1 = escape_each s2 -> s1 = s2.
Proof.
  induction s1 as [|a t IH]; intros [|b u]; simpl; intros H.
  - reflexivity.
  - exfalso. destruct (escape_char_cases b) as [[_ Hb]|[_ Hb]];
      [destruct Hb as [Hb|[Hb|[Hb|[Hb|Hb]]]]|]; rewrite Hb in H; discriminate H.
  - exfalso. destruct (escape_char_cases a) as [[_ Ha]|[_ Ha]];
      [destruct Ha as [Ha|[Ha|[Ha|[Ha|Ha]]]]|]; rewrite Ha in H; discriminate H.
  - unfold escape_char in H.
    destruct (Ascii.eqb_spec a "&"%char) as [->|Na1];
      [|destruct (Ascii.eqb_spec a "<"%char) as [->|Na2];
        [|destruct (Ascii.eqb_spec a ">"%char) as [->|Na3];
          [|destruct (Ascii.eqb_spec a "034"%char) as [->|Na4];
            [|destruct (Ascii.eqb_spec a "'"%char) as [->|Na5]]]]];
      (destruct (Ascii.eqb_spec b "&"%char) as [->|Nb1];
       [|destruct (Ascii.eqb_spec b "<"%char) as [->|Nb2];
         [|destruct (Ascii.eqb_spec b ">"%char) as [->|Nb3];
           [|destruct (Ascii.eqb_spec b "034"%char) as [->|Nb4];
             [|destruct (Ascii.eqb_spec b "'"%char) as [->|Nb5]]]]]);
      simpl in H; try discriminate H;
      try (injection H as H; f_equal; now apply IH);
      try (injection H as Hh H; congruence);
      try (injection H as Hh H; subst; f_equal; now apply IH).
Qed.

(** X3. [escapeHtml] loses nothing: two texts with the same escaped form are
    the same text. *)
Theorem escapeHtml_injective (s1 s2 : string) :
  escapeHtml s1 = escapeHtml s2 -> s1 = s2.
Proof.
  rewrite !escapeHtml_escape_each. apply escape_each_injective.
Qed.

Lemma escapeHtml_injective_witness : "a<b" = "a<b".
Proof. apply (escapeHtml_injective "a<b" "a<b"). reflexivity. Defined.

(** X4. [escapeHtml] never shortens a text, leaves it unchanged exactly when
    it holds none of the five characters, and is not idempotent: escaping an
    escaped text changes it again unless the text held none of them. *)
Theorem escapeHtml_fixed_points (s : string) :
  (String.length s <= String.length (escapeHtml s))%nat
  /\ (escapeHtml s = s <-> plain s)
  /\ (escapeHtml (escapeHtml s) = escapeHtml s <-> plain s).
Proof.
  assert (Hfix : escapeHtml s = s <-> plain s).
  { rewrite escapeHtml_escape_each. split.
    - intros H. apply escape_each_length. now rewrite H.
    - apply escape_each_plain. }
  split; [|split; [exact Hfix|]].
  - rewrite escapeHtml_escape_each. apply escape_each_length.
  - rewrite <- Hfix. split.
    + rewrite !escapeHtml_escape_each. intros H.
      now apply escape_each_injective in H.
    + intros H. now rewrite !H.
Qed.

Example escapeHtml_example :
  escapeHtml "Tom & <Jerry>" = "Tom &amp; &lt;Jerry&gt;".
Proof. reflexivity. Qed.

(** ** validateNumbers *)

Lemma nodup_length_le (l : list Z) :
  (List.length (nodup Z.eq_dec l) <= List.length l)%nat.
Proof.
  induction l as [|x t IH]; simpl; [lia|].
  destruct (in_dec Z.eq_dec x t); simpl; lia.
Qed.

Lemma nodup_length_NoDup (l : list Z) :
  List.length (nodup Z.eq_dec l) = List.length l -> NoDup l.
Proof.
  induction l as [|x t IH]; simpl; [constructor|].
  pose proof (nodup_length_le t).
  destruct (in_dec Z.eq_dec x t); simpl; intros H'; [lia|].
  constructor; [assumption|]. apply IH. lia.
Qed.

Lemma digits_In (d : Z) : In d digits <-> 0 <= d <= 9.
Proof.
  unfold digits; simpl. split.
  - intros H. repeat (destruct H as [H|H]; [lia|]). contradiction.
  - intros H.
    assert (d = 0 \/ d = 1 \/ d = 2 \/ d = 3 \/ d = 4 \/ d = 5 \/ d = 6 \/ d = 7
            \/ d = 8 \/ d = 9) by lia.
    intuition.
Qed.

Lemma digits_NoDup : NoDup digits.
Proof.
  unfold digits.
  repeat (constructor; [simpl; intros H; repeat (destruct H as [H|H]; [lia|]);
                        contradiction|]).
  constructor.
Qed.

Lemma validateNumbers_spec (arr : list (option Z)) :
  validateNumbers arr = valid <-> Permutation (non_null arr) digits.
Proof.
  unfold validateNumbers. set (l := non_null arr). split.
  - destruct (Nat.eqb_spec (List.length l) 10) as [Hlen|]; [|discriminate].
    cbn [negb].
    destruct (Nat.eqb_spec (List.length (nodup Z.eq_dec l)) 10) as [Hu|];
      [|discriminate].
    cbn [negb]. destruct (existsb _ l) eqn:Hex; [discriminate|]. intros _.
    apply NoDup_Permutation_bis.
    + apply nodup_length_NoDup. congruence.
    + rewrite Hlen. apply le_n.
    + intros d Hd. apply digits_In.
      assert (Hd' : (d <? 0) || (d >? 9) = false).
      { destruct ((d <? 0) || (d >? 9)) eqn:E; [|reflexivity].
        assert (existsb (fun n => (n <? 0) || (n >? 9)) l = true)
          by (apply existsb_exists; eauto).
        congruence. }
      apply orb_false_iff in Hd'. destruct Hd' as [H1 H2].
      apply Z.ltb_ge in H1. rewrite Z.gtb_ltb in H2. apply Z.ltb_ge in H2. lia.
  - intros Hp.
    assert (Hlen : List.length l = 10%nat)
      by (rewrite (Permutation_length Hp); reflexivity).
    assert (Hnd : NoDup l)
      by (apply (Permutation_NoDup (Permutation_sym Hp)), digits_NoDup).
    rewrite (nodup_fixed_point Z.eq_dec Hnd), Hlen. cbn.
    destruct (existsb _ l) eqn:Hex; [|reflexivity].
    apply existsb_exists in Hex. destruct Hex as (d & Hd & Hbad).
    apply (Permutation_in _ Hp), digits_In in Hd.
    apply orb_true_iff in Hbad. rewrite Z.gtb_ltb in Hbad.
    destruct Hbad as [H|H]; apply Z.ltb_lt in H; lia.
Qed.

(** X5. [validateNumbers] accepts an entry exactly when its filled cells are
    a permutation of the digits 0 to 9; any missing, repeated or out-of-range
    number is refused. *)
Theorem validateNumbers_accepts_permutations (arr : list (option Z)) :
  (validateNumbers arr = valid <-> Permutation (non_null arr) digits)
  /\ (Permutation (non_null arr) digits ->
      List.length (non_null arr) = 10%nat
      /\ NoDup (non_null arr)
      /\ forall d, In d (non_null arr) <-> 0 <= d <= 9).
Proof.
  split; [apply validateNumbers_spec|]. intros Hp. split; [|split].
  - rewrite (Permutation_length Hp). reflexivity.
  - apply (Permutation_NoDup (Permutation_sym Hp)), digits_NoDup.
  - intros d. rewrite <- digits_In. split.
    + apply (Permutation_in _ Hp).
    + apply (Permutation_in _ (Permutation_sym Hp)).
Qed.

Lemma validateNumbers_accepts_permutations_witness :
  validateNumbers (map Some [7; 3; 0; 1; 2; 4; 5; 6; 8; 9]) = valid
  /\ List.length (non_null (map Some [7; 3; 0; 1; 2; 4; 5; 6; 8; 9])) = 10%nat.
Proof.
  destruct (validateNumbers_accepts_permutations
              (map Some [7; 3; 0; 1; 2; 4; 5; 6; 8; 9])) as [Hiff Hperm].
  assert (Hv : validateNumbers (map Some [7; 3; 0; 1; 2; 4; 5; 6; 8; 9]) = valid)
    by reflexivity.
  split; [exact Hv|]. apply Hperm. apply Hiff. exact Hv.
Defined.

Lemma non_null_map_Some (l : list Z) : non_null (map Some l) = l.
Proof. induction l as [|x t IH]; simpl; [reflexivity|]. now rewrite IH. Qed.

Lemma lookup_in_permutation (numbers : list Z) (score : Z) :
  Permutation numbers digits -> 0 <= score ->
  let i := JS.indexOf numbers (lastDigit score) in
  0 <= i <= 9
  /\ nth_error numbers (Z.to_nat i) = Some (score mod 10)
  /\ forall k, nth_error numbers k = Some (score mod 10) -> k = Z.to_nat i.
Proof.
  intros Hp Hs i.
  destruct (lastDigit_nonneg score Hs) as [Hd Hr].
  assert (Hin : In (lastDigit score) numbers).
  { apply (Permutation_in _ (Permutation_sym Hp)). now apply digits_In. }
  destruct (indexOf_spec numbers (lastDigit score)) as [[_ Hf]|[Hn _]];
    [|contradiction].
  fold i in Hf. destruct Hf as (H0 & Hnth & Hmin). rewrite Hd in Hnth.
  assert (Hlen : List.length numbers = 10%nat)
    by (rewrite (Permutation_length Hp); reflexivity).
  assert (Hlt : (Z.to_nat i < 10)%nat).
  { rewrite <- Hlen. apply nth_error_Some. congruence. }
  repeat split; try lia; try assumption.
  intros k Hk.
  assert (Hnd : NoDup numbers)
    by (apply (Permutation_NoDup (Permutation_sym Hp)), digits_NoDup).
  apply (proj1 (NoDup_nth_error numbers) Hnd).
  - apply nth_error_Some. congruence.
  - congruence.
Qed.

(** X6. On assignments that [validateNumbers] accepts the digit lookup of
    the winner selection never fails for scores that are not negative: both
    indices lie between 0 and 9, each is the only position holding the last
    digit of its score, and the winner is whatever square sits at that cell,
    in the pipeline and in the manual entry alike. *)
Theorem validated_numbers_always_match
    (rn cn : list Z) (picked : list SquareRow.t) (homeScore awayScore : Z) :
  validateNumbers (map Some rn) = valid ->
  validateNumbers (map Some cn) = valid ->
  0 <= homeScore -> 0 <= awayScore ->
  let sel := processQuarter_select (Some rn) (Some cn) picked homeScore awayScore in
  0 <= winningRowIndex sel <= 9
  /\ 0 <= winningColIndex sel <= 9
  /\ nth_error rn (Z.to_nat (winningRowIndex sel)) = Some (homeScore mod 10)
  /\ nth_error cn (Z.to_nat (winningColIndex sel)) = Some (awayScore mod 10)
  /\ (forall k, nth_error rn k = Some (homeScore mod 10) ->
                k = Z.to_nat (winningRowIndex sel))
  /\ (forall k, nth_error cn k = Some (awayScore mod 10) ->
                k = Z.to_nat (winningColIndex sel))
  /\ winningSquare sel
     = find (square_at (winningRowIndex sel) (winningColIndex sel)) picked
  /\ saveScores_select rn cn picked homeScore awayScore = sel.
Proof.
  intros Hr Hc Hh Ha sel.
  apply validateNumbers_spec in Hr, Hc. rewrite non_null_map_Some in Hr, Hc.
  destruct (lookup_in_permutation rn homeScore Hr Hh) as (Hri & Hrn & Hru).
  destruct (lookup_in_permutation cn awayScore Hc Ha) as (Hci & Hcn & Hcu).
  subst sel. unfold processQuarter_select. cbn [JS.indexOf_opt winningRowIndex
    winningColIndex winningSquare].
  repeat split; try assumption; try lia.
  destruct (Z.eqb_spec (JS.indexOf rn (lastDigit homeScore)) (-1)); [lia|].
  destruct (Z.eqb_spec (JS.indexOf cn (lastDigit awayScore)) (-1)); [lia|].
  reflexivity.
Qed.

Lemma validated_numbers_always_match_witness :
  0 <= winningRowIndex
         (processQuarter_select (Some [7; 3; 0; 1; 2; 4; 5; 6; 8; 9])
            (Some [9; 8; 3; 0; 1; 2; 4; 5; 6; 7]) [] 47 23) <= 9.
Proof.
  apply (validated_numbers_always_match [7; 3; 0; 1; 2; 4; 5; 6; 8; 9]
           [9; 8; 3; 0; 1; 2; 4; 5; 6; 7] [] 47 23);
    first [reflexivity | discriminate].
Defined.

(** ** Prizes of the four quarters *)

(** X7. On a whole price (with price x 10000 below 2^53), when the four
    payout percents are not negative and add up to at most 100 (the check
    constraint of the contests table), no operation rounds: the pot is the
    whole number price x 100, each prize is the whole number price x
    percent, none is negative, and the four prizes together do not exceed
    the pot. *)
Theorem prizes_within_pot (contest : ContestRow.t) (p : Z) :
  ContestRow.square_price contest = Double.of_Z p ->
  0 <= p ->
  p * 10000 < 2 ^ 53 ->
  0 <= getPayoutPercent contest "q1" ->
  0 <= getPayoutPercent contest "q2" ->
  0 <= getPayoutPercent contest "q3" ->
  0 <= getPayoutPercent contest "final" ->
  getPayoutPercent contest "q1" + getPayoutPercent contest "q2"
  + getPayoutPercent contest "q3" + getPayoutPercent contest "final" <= 100 ->
  let prize quarter := p * getPayoutPercent contest quarter in
  Double.mul (ContestRow.square_price contest) (Double.of_Z 100)
  = Double.of_Z (p * 100)
  /\ getPrizeAmount contest "q1" = Double.of_Z (prize "q1")
  /\ getPrizeAmount contest "q2" = Double.of_Z (prize "q2")
  /\ getPrizeAmount contest "q3" = Double.of_Z (prize "q3")
  /\ getPrizeAmount contest "final" = Double.of_Z (prize "final")
  /\ 0 <= prize "q1" /\ 0 <= prize "q2" /\ 0 <= prize "q3" /\ 0 <= prize "final"
  /\ prize "q1" + prize "q2" + prize "q3" + prize "final" <= p * 100.
Proof.
  intros Hprice Hp Hb H1 H2 H3 H4 Hsum prize. subst prize. cbv beta.
  split.
  { rewrite Hprice. destruct (Z.eq_dec p 0) as [->|Hp0]; [reflexivity|].
    rewrite (of_Z_canon p), (of_Z_canon (p * 100))
      by (try apply log2_below; lia).
    change (Double.of_Z 100) with (Double.canon false 100).
    rewrite mul_canon by (try apply log2_below; lia). reflexivity. }
  repeat (split; [apply getPrizeAmount_whole; (assumption || lia)|]).
  repeat (split; [nia|]). nia.
Qed.

(** On a price that is not whole the operations round, and the four prizes
    can add up to more than the pot. *)
Example rounding_can_exceed_the_pot :
  exists pot q1 q2 q3 final : Q,
    Double.to_Q (Double.mul (ContestRow.square_price Cents.uneven) (Double.of_Z 100))
    = Some pot
    /\ Double.to_Q (getPrizeAmount Cents.uneven "q1") = Some q1
    /\ Double.to_Q (getPrizeAmount Cents.uneven "q2") = Some q2
    /\ Double.to_Q (getPrizeAmount Cents.uneven "q3") = Some q3
    /\ Double.to_Q (getPrizeAmount Cents.uneven "final") = Some final
    /\ (pot < q1 + q2 + q3 + final)%Q.
Proof.
  do 5 eexists. do 5 (split; [vm_compute; reflexivity|]). vm_compute. reflexivity.
Qed.

Lemma prizes_within_pot_witness :
  getPrizeAmount Demo.contest "q1" = Double.of_Z 250
  /\ 10 * 25 + 10 * 25 + 10 * 0 + 10 * 25 <= 10 * 100.
Proof.
  destruct (prizes_within_pot Demo.contest 10) as (_ & Hq1 & _ & _ & _ & _ & _ & _ & _ & Hsum);
    try (cbn; lia); try reflexivity.
  split; [exact Hq1|exact Hsum].
Defined.

(** ** More on one call of processQuarter *)

(** X8. A call that reports an error has changed nothing: no row, no score,
    no message and no flag; the error is that of the squares query or of the
    upsert, and the row of the pair was not yet fully processed. *)
Theorem failed_call_changes_nothing
    (env : Env) (w : World) (contest : ContestRow.t) (quarter : string)
    (homeScore awayScore : Z) (msg : string) :
  process_error (fst (processQuarter env w contest quarter homeScore awayScore))
  = Some msg ->
  processQuarter env w contest quarter homeScore awayScore
  = (mkProcessResult false (Some msg), w)
  /\ (existing_flag QuarterResult.winner_email_sent
        (select_existing w (ContestRow.id contest) quarter)
      && existing_flag QuarterResult.owner_email_sent
           (select_existing w (ContestRow.id contest) quarter) = false)
  /\ ((exists e, squares_error env = Some e
                 /\ msg = "Failed to fetch squares: " ++ e)
      \/ (squares_error env = None
          /\ exists e, upsert_error env = Some e
                       /\ msg = "Failed to upsert result: " ++ e)).
Proof.
  unfold processQuarter, fetch_squares.
  destruct (existing_flag QuarterResult.winner_email_sent _
            && existing_flag QuarterResult.owner_email_sent _);
    [discriminate|].
  destruct (squares_error env) as [e|]; cbn [error data fst process_error].
  - intros [= <-]. repeat split. left. eauto.
  - destruct (upsert_error env) as [e|]; cbn [fst process_error].
    + intros [= <-]. repeat split. right. eauto.
    + destruct (winner_step _ _ _ _ _ _ _ _ _), (owner_step _ _ _ _ _ _ _ _ _).
      discriminate.
Qed.

Lemma failed_call_changes_nothing_witness :
  processQuarter Demo.upsert_refused Demo.fresh Demo.contest "q1" 47 23
  = (mkProcessResult false (Some "Failed to upsert result: timeout"), Demo.fresh).
Proof.
  apply (failed_call_changes_nothing Demo.upsert_refused Demo.fresh Demo.contest
           "q1" 47 23 "Failed to upsert result: timeout").
  reflexivity.
Defined.





(** ** saveScores *)

Section SaveScores.

Variables (senv : SaveEnv) (contest : ContestRow.t).

Let cid := ContestRow.id contest.

Lemma save_guards_loop (w : World) (submitted : list ScoreInput) :
  save_guards_pass senv cid contest ->
  exists rn cn,
    ContestRow.row_numbers contest = Some rn
    /\ ContestRow.col_numbers contest = Some cn
    /\ saveScores senv w cid submitted
       = saveScores_loop senv w cid rn cn
           (filter (fun sq => String.eqb (SquareRow.contest_id sq) cid) (squares w))
           submitted [].
Proof.
  intros (Hfound & Huser & Hstatus & Hnum & Hsq).
  unfold numbers_missing in Hnum.
  destruct (ContestRow.row_numbers contest) as [rn|] eqn:Hrn; [|discriminate].
  destruct (ContestRow.col_numbers contest) as [cn|] eqn:Hcn; [|discriminate].
  exists rn, cn. repeat split.
  unfold saveScores. rewrite Huser, Hfound, Hstatus, Hrn, Hcn, Hsq.
  rewrite !String.eqb_refl. reflexivity.
Qed.

Lemma save_guards_of_success (w : World) (contestId : string)
    (submitted : list ScoreInput) (winners : list WinnerInfo) :
  fst (saveScores senv w contestId submitted) = inr winners ->
  exists found,
    ContestRow.id found = contestId /\ save_guards_pass senv contestId found.
Proof.
  unfold saveScores, save_guards_pass, numbers_missing.
  destruct (session_user senv) as [user|]; [|discriminate].
  destruct (JS.single _) as [found|] eqn:Hfound; [|discriminate].
  destruct (String.eqb_spec (ContestRow.owner_id found) user) as [<-|];
    [|discriminate].
  destruct (String.eqb_spec (ContestRow.status found) "in_progress") as [Hs|];
    [|discriminate].
  destruct (ContestRow.row_numbers found) eqn:Hrn; [|discriminate].
  destruct (ContestRow.col_numbers found) eqn:Hcn; [|discriminate].
  destruct (save_squares_error senv); [discriminate|].
  intros _. exists found. rewrite Hrn, Hcn. repeat split; try assumption.
  unfold JS.single in Hfound.
  destruct (filter _ (contests_table senv)) as [|c0 [|c1 t]] eqn:Hf;
    try discriminate.
  injection Hfound as ->.
  assert (Hin : In found (filter (fun c => String.eqb (ContestRow.id c) contestId)
                            (contests_table senv)))
    by (rewrite Hf; now left).
  apply filter_In in Hin. now apply String.eqb_eq.
Qed.

(** The loop on a world [w0] with the same squares as [w]. *)
Lemma saveScores_loop_run (rn cn : list Z) (w : World)
    (submitted : list ScoreInput) :
  ContestRow.row_numbers contest = Some rn ->
  ContestRow.col_numbers contest = Some cn ->
  forall (w0 : World) (acc : list WinnerInfo),
    squares w0 = squares w ->
    let out :=
      saveScores_loop senv w0 cid rn cn
        (filter (fun sq => String.eqb (SquareRow.contest_id sq) cid) (squares w))
        submitted acc in
    squares (snd out) = squares w
    /\ quarter_results (snd out) = quarter_results w0
    /\ exists saved,
         journal (snd out)
         = (journal w0 ++ map (fun s => UpsertScore (entered_score senv w contest s))
                            saved)%list
         /\ scores (snd out)
            = fold_left (fun rows s => upsert_score_rows rows
                                         (entered_score senv w contest s))
                        saved (scores w0)
         /\ Forall (fun s => score_upsert_error senv (input_quarter s) = None) saved
         /\ ((exists winners, fst out = inr winners) -> saved = submitted)
         /\ forall msg, fst out = inl msg ->
              exists failed rest e,
                submitted = (saved ++ failed :: rest)%list
                /\ score_upsert_error senv (input_quarter failed) = Some e
                /\ msg = "Failed to save score for " ++ input_quarter failed
                         ++ ": " ++ e.
Proof.
  intros Hrn Hcn.
  induction submitted as [|score rest IH]; intros w0 acc Hsq;
    cbn [saveScores_loop].
  - repeat split; try assumption. exists []. cbn.
    rewrite app_nil_r. repeat split; try constructor.
    intros msg [=].
  - destruct (score_upsert_error senv (input_quarter score)) as [e|] eqn:He.
    + cbn [fst snd]. repeat split; try assumption. exists []. cbn.
      rewrite app_nil_r. repeat split; try constructor.
      * intros [winners [=]].
      * intros msg [= <-]. exists score, rest, e. auto.
    + assert (Hrow : ScoreRow.mk cid (input_quarter score) (input_homeScore score)
                       (input_awayScore score)
                       (square_id_or_null
                          (winningSquare
                             (saveScores_select rn cn
                                (filter (fun sq => String.eqb (SquareRow.contest_id sq) cid)
                                   (squares w))
                                (input_homeScore score) (input_awayScore score))))
                       (save_now senv)
                     = entered_score senv w contest score).
      { unfold entered_score, pipeline_winner_info. rewrite Hrn, Hcn. reflexivity. }
      rewrite Hrow.
      match goal with
      | |- context [saveScores_loop senv ?w1 cid rn cn _ rest ?acc1] =>
          destruct (IH w1 acc1 Hsq) as (Hs & Hq & saved & Hj & Hsc & Hok & Hin & Hfail)
      end.
      split; [exact Hs|]. split; [exact Hq|].
      exists (score :: saved). cbn [map fold_left].
      split; [rewrite Hj; cbn [journal upsert_score]; now rewrite <- app_assoc|].
      split; [exact Hsc|].
      split; [constructor; assumption|].
      split.
      * intros Hw. f_equal. now apply Hin.
      * intros msg Hm. destruct (Hfail msg Hm) as (failed & tl & e & -> & Hf & ->).
        exists failed, tl, e. auto.
Qed.

End SaveScores.

(** X10. [saveScores] answers with winners only when the signed-in user owns
    the contest found, the contest is in progress, both assignments exist and
    neither the squares query nor any upsert failed; it then has upserted one
    score per entry, in order, each carrying the square id the pipeline's
    selection gives, and has touched nothing else: no result row, no square,
    no message. *)
Theorem saveScores_success
    (senv : SaveEnv) (w : World) (contestId : string)
    (submitted : list ScoreInput) (winners : list WinnerInfo) :
  fst (saveScores senv w contestId submitted) = inr winners ->
  exists contest,
    ContestRow.id contest = contestId
    /\ save_guards_pass senv contestId contest
    /\ Forall (fun s => score_upsert_error senv (input_quarter s) = None) submitted
    /\ List.length winners = List.length submitted
    /\ new_effects w (snd (saveScores senv w contestId submitted))
       = map (fun s => UpsertScore (entered_score senv w contest s)) submitted
    /\ quarter_results (snd (saveScores senv w contestId submitted))
       = quarter_results w
    /\ squares (snd (saveScores senv w contestId submitted)) = squares w.
Proof.
  intros Hok.
  destruct (save_guards_of_success senv w contestId submitted winners Hok)
    as (contest & <- & Hg).
  exists contest. split; [reflexivity|]. split; [exact Hg|].
  destruct (save_guards_loop senv contest w submitted Hg) as (rn & cn & Hrn & Hcn & Heq).
  rewrite Heq in *.
  destruct (saveScores_loop_run senv contest rn cn w submitted Hrn Hcn w [] eq_refl)
    as (Hs & Hq & saved & Hj & _ & Hall & Hin & _).
  assert (saved = submitted) by (apply Hin; eauto). subst saved.
  split; [exact Hall|].
  destruct (saveScores_loop senv w (ContestRow.id contest) rn cn _ submitted [])
    as [out w'] eqn:Hrun.
  cbn [fst snd] in *. subst out.
  destruct (saveScores_loop_winners senv contest rn cn submitted Hrn Hcn
              w w' [] winners Hrun) as [-> _].
  split; [cbn; now rewrite length_map|].
  split; [now apply new_effects_app|]. split; assumption.
Qed.

Lemma saveScores_success_witness :
  new_effects Demo.fresh
    (snd (saveScores Demo.owner_session Demo.fresh "c1" [mkScoreInput "q1" 47 23]))
  = [UpsertScore (ScoreRow.mk "c1" "q1" 47 23 (Some "s02") 1000)].
Proof.
  destruct (saveScores_success Demo.owner_session Demo.fresh "c1"
              [mkScoreInput "q1" 47 23]
              [mkWinnerInfo "q1" 47 23 (Some "s02") (Some "Ann Lee")
                 (Some "ann@example.org")] eq_refl)
    as (contest & _ & (Hfound & _) & _ & _ & Heff & _).
  injection Hfound as <-. exact Heff.
Defined.

(** X11. [saveScores] is not atomic: when the upsert of a score fails, the
    action answers with the error naming that quarter, and the scores entered
    before it stay saved; nothing after it is written. Whatever the outcome,
    the action never touches the result rows or the squares and hands no
    message to the transport. *)
Theorem saveScores_stops_at_first_failure
    (senv : SaveEnv) (w : World) (contest : ContestRow.t)
    (submitted : list ScoreInput) (msg : string) :
  save_guards_pass senv (ContestRow.id contest) contest ->
  fst (saveScores senv w (ContestRow.id contest) submitted) = inl msg ->
  exists saved failed rest e,
    submitted = (saved ++ failed :: rest)%list
    /\ Forall (fun s => score_upsert_error senv (input_quarter s) = None) saved
    /\ score_upsert_error senv (input_quarter failed) = Some e
    /\ msg = "Failed to save score for " ++ input_quarter failed ++ ": " ++ e
    /\ new_effects w (snd (saveScores senv w (ContestRow.id contest) submitted))
       = map (fun s => UpsertScore (entered_score senv w contest s)) saved
    /\ quarter_results (snd (saveScores senv w (ContestRow.id contest) submitted))
       = quarter_results w
    /\ squares (snd (saveScores senv w (ContestRow.id contest) submitted))
       = squares w.
Proof.
  intros Hg Hbad.
  destruct (save_guards_loop senv contest w submitted Hg) as (rn & cn & Hrn & Hcn & Heq).
  rewrite Heq in *.
  destruct (saveScores_loop_run senv contest rn cn w submitted Hrn Hcn w [] eq_refl)
    as (Hs & Hq & saved & Hj & _ & Hall & _ & Hfail).
  destruct (Hfail msg Hbad) as (failed & rest & e & Hsplit & He & Hmsg).
  exists saved, failed, rest, e. repeat split; try assumption.
  now apply new_effects_app.
Qed.

Lemma saveScores_stops_at_first_failure_witness :
  new_effects Demo.fresh
    (snd (saveScores Sample.halftime_refused Demo.fresh "c1"
            [mkScoreInput "q1" 47 23; mkScoreInput "q2" 13 9;
             mkScoreInput "q3" 20 9]))
  = [UpsertScore (ScoreRow.mk "c1" "q1" 47 23 (Some "s02") 1000)].
Proof.
  destruct (saveScores_stops_at_first_failure Sample.halftime_refused Demo.fresh
              Demo.contest
              [mkScoreInput "q1" 47 23; mkScoreInput "q2" 13 9;
               mkScoreInput "q3" 20 9]
              "Failed to save score for q2: timeout")
    as (saved & failed & rest & e & Hsplit & _ & Hfailed & _ & Heff & _).
  - repeat split.
  - reflexivity.
  - destruct saved as [|s0 [|s1 saved]].
    + injection Hsplit as <- _. discriminate Hfailed.
    + injection Hsplit as <- _ _. exact Heff.
    + injection Hsplit as _ <- Hrest. exfalso.
      destruct saved as [|s2 saved].
      * injection Hrest as <- _. discriminate Hfailed.
      * injection Hrest as _ Hnil. destruct saved; discriminate Hnil.
Defined.

(** ** The scores table *)

Lemma score_key_matches_true (c q : string) (s : ScoreRow.t) :
  score_key_matches c q s = true
  <-> ScoreRow.contest_id s = c /\ ScoreRow.quarter s = q.
Proof.
  unfold score_key_matches. rewrite andb_true_iff, !String.eqb_eq. tauto.
Qed.

Lemma select_scores_upsert (rows : list ScoreRow.t) (s : ScoreRow.t) (c q : string) :
  filter (score_key_matches c q) (upsert_score_rows rows s)
  = if score_key_matches c q s
    then match filter (score_key_matches c q) rows with
         | [] => [s]
         | hits => map (fun _ => s) hits
         end
    else filter (score_key_matches c q) rows.
Proof.
  unfold upsert_score_rows.
  set (hit := score_key_matches (ScoreRow.contest_id s) (ScoreRow.quarter s)).
  assert (Hs : hit s = true)
    by (unfold hit, score_key_matches; now rewrite !String.eqb_refl).
  destruct (score_key_matches c q s) eqn:Hk.
  - apply score_key_matches_true in Hk. destruct Hk as [<- <-]. fold hit.
    rewrite existsb_is_empty.
    destruct (filter hit rows) as [|r0 hits] eqn:E; cbn [is_empty negb].
    + rewrite filter_app, E. cbn. now rewrite Hs.
    + rewrite filter_map_commute.
      * rewrite E. apply map_ext_in. intros r Hr. rewrite <- E in Hr.
        apply filter_In in Hr. now destruct Hr as [_ ->].
      * intros r. destruct (hit r) eqn:Hr; [exact Hs|exact Hr].
  - assert (Hother : forall r, hit r = true -> score_key_matches c q r = false).
    { intros r Hr. apply score_key_matches_true in Hr. destruct Hr as [Hc Hq].
      destruct (score_key_matches c q r) eqn:Hr'; [|reflexivity].
      apply score_key_matches_true in Hr'. destruct Hr' as [Hc' Hq'].
      assert (score_key_matches c q s = true)
        by (apply score_key_matches_true; split; congruence).
      congruence. }
    destruct (existsb hit rows).
    + apply filter_map_frame.
      * intros r. destruct (hit r) eqn:Hr; [|reflexivity].
        rewrite Hk. symmetry. now apply Hother.
      * intros r Hr. destruct (hit r) eqn:Hh; [|reflexivity].
        apply Hother in Hh. congruence.
    + rewrite filter_app. cbn. rewrite Hk. apply app_nil_r.
Qed.

Lemma find_rev_cons {A : Type} (P : A -> bool) (x : A) (l : list A) :
  find P (rev (x :: l))
  = match find P (rev l) with
    | Some y => Some y
    | None => if P x then Some x else None
    end.
Proof.
  cbn [rev]. induction (rev l) as [|y t IH]; cbn; [reflexivity|].
  destruct (P y); [reflexivity|exact IH].
Qed.

Lemma entered_scores_lookup (senv : SaveEnv) (w : World) (contest : ContestRow.t)
    (q : string) (saved : list ScoreInput) :
  forall rows : list ScoreRow.t,
    (List.length (filter (score_key_matches (ContestRow.id contest) q) rows) <= 1)%nat ->
    filter (score_key_matches (ContestRow.id contest) q)
      (fold_left (fun rows s => upsert_score_rows rows (entered_score senv w contest s))
         saved rows)
    = match last_entered q saved with
      | Some s => [entered_score senv w contest s]
      | None => filter (score_key_matches (ContestRow.id contest) q) rows
      end.
Proof.
  unfold last_entered.
  induction saved as [|s t IH]; intros rows Hu; [reflexivity|].
  cbn [fold_left]. rewrite find_rev_cons.
  assert (Hkey : score_key_matches (ContestRow.id contest) q
                   (entered_score senv w contest s)
                 = String.eqb (input_quarter s) q).
  { unfold score_key_matches, entered_score. cbn. now rewrite String.eqb_refl. }
  assert (Hstep :
            filter (score_key_matches (ContestRow.id contest) q)
              (upsert_score_rows rows (entered_score senv w contest s))
            = if String.eqb (input_quarter s) q
              then [entered_score senv w contest s]
              else filter (score_key_matches (ContestRow.id contest) q) rows).
  { rewrite select_scores_upsert, Hkey.
    destruct (String.eqb (input_quarter s) q); [|reflexivity].
    destruct (filter _ rows) as [|x [|y l]]; cbn in Hu; try lia; reflexivity. }
  rewrite IH.
  - destruct (find _ (rev t)); [reflexivity|]. rewrite Hstep.
    now destruct (String.eqb (input_quarter s) q).
  - rewrite Hstep. destruct (String.eqb (input_quarter s) q); [cbn; lia|exact Hu].
Qed.

Lemma entered_scores_other (senv : SaveEnv) (w : World) (contest : ContestRow.t)
    (c q : string) (saved : list ScoreInput) :
  c <> ContestRow.id contest ->
  forall rows : list ScoreRow.t,
    filter (score_key_matches c q)
      (fold_left (fun rows s => upsert_score_rows rows (entered_score senv w contest s))
         saved rows)
    = filter (score_key_matches c q) rows.
Proof.
  intros Hne. induction saved as [|s t IH]; intros rows; [reflexivity|].
  cbn [fold_left]. rewrite IH, select_scores_upsert.
  destruct (score_key_matches c q (entered_score senv w contest s)) eqn:Hk;
    [|reflexivity].
  apply score_key_matches_true in Hk. destruct Hk as [Hc _]. cbn in Hc. congruence.
Qed.

(** X12. After [saveScores] has answered with winners, looking up the scores
    of the contest by quarter gives, for a quarter that was entered, exactly
    one row holding the last entry for that quarter and, for a quarter that
    was not entered, what the table held before (the table having at most one
    row for that contest and quarter, as its uniqueness constraint says);
    the scores of every other contest are untouched. *)
Theorem saveScores_lookup
    (senv : SaveEnv) (w : World) (contest : ContestRow.t)
    (submitted : list ScoreInput) (winners : list WinnerInfo) :
  save_guards_pass senv (ContestRow.id contest) contest ->
  fst (saveScores senv w (ContestRow.id contest) submitted) = inr winners ->
  let after := snd (saveScores senv w (ContestRow.id contest) submitted) in
  (forall q,
      (List.length (select_scores w (ContestRow.id contest) q) <= 1)%nat ->
      select_scores after (ContestRow.id contest) q
      = match last_entered q submitted with
        | Some s => [entered_score senv w contest s]
        | None => select_scores w (ContestRow.id contest) q
        end)
  /\ (forall c q, c <> ContestRow.id contest ->
                  select_scores after c q = select_scores w c q).
Proof.
  intros Hg Hok after. subst after.
  destruct (save_guards_loop senv contest w submitted Hg) as (rn & cn & Hrn & Hcn & Heq).
  rewrite Heq in *.
  destruct (saveScores_loop_run senv contest rn cn w submitted Hrn Hcn w [] eq_refl)
    as (_ & _ & saved & _ & Hsc & _ & Hin & _).
  assert (saved = submitted) by (apply Hin; eauto). subst saved.
  unfold select_scores. rewrite Hsc. split.
  - intros q Hu. now apply entered_scores_lookup.
  - intros c q Hne. now apply entered_scores_other.
Qed.

Lemma saveScores_lookup_witness :
  select_scores
    (snd (saveScores Demo.owner_session Demo.fresh "c1"
            [mkScoreInput "q1" 40 20; mkScoreInput "q1" 47 23]))
    "c1" "q1"
  = [ScoreRow.mk "c1" "q1" 47 23 (Some "s02") 1000].
Proof.
  destruct (saveScores_lookup Demo.owner_session Demo.fresh Demo.contest
              [mkScoreInput "q1" 40 20; mkScoreInput "q1" 47 23]
              [mkWinnerInfo "q1" 40 20 None None None;
               mkWinnerInfo "q1" 47 23 (Some "s02") (Some "Ann Lee")
                 (Some "ann@example.org")])
    as [Hlook _].
  - repeat split.
  - reflexivity.
  - apply (Hlook "q1"). cbn. lia.
Defined.

(** X13. The score the pipeline mirrors into the scores table is the score a
    manual entry of the same quarter and scores would write: after a call of
    [processQuarter] that passed its guards and after [saveScores] on that
    one score, read at the same clock, the scores table is the same. *)
Theorem pipeline_mirror_is_manual_entry
    (env : Env) (senv : SaveEnv) (w : World) (contest : ContestRow.t)
    (quarter : string) (homeScore awayScore : Z) (winners : list WinnerInfo) :
  runs env w contest quarter = true ->
  save_guards_pass senv (ContestRow.id contest) contest ->
  fst (saveScores senv w (ContestRow.id contest)
         [mkScoreInput quarter homeScore awayScore]) = inr winners ->
  now env = save_now senv ->
  scores (snd (processQuarter env w contest quarter homeScore awayScore))
  = scores (snd (saveScores senv w (ContestRow.id contest)
                   [mkScoreInput quarter homeScore awayScore])).
Proof.
  intros Hrun Hg Hok Hclock.
  rewrite processQuarter_run by exact Hrun. cbn [snd run_world scores].
  destruct (save_guards_loop senv contest w [mkScoreInput quarter homeScore awayScore]
              Hg) as (rn & cn & Hrn & Hcn & Heq).
  rewrite Heq in *.
  destruct (saveScores_loop_run senv contest rn cn w
              [mkScoreInput quarter homeScore awayScore] Hrn Hcn w [] eq_refl)
    as (_ & _ & saved & _ & Hsc & _ & Hin & _).
  assert (saved = [mkScoreInput quarter homeScore awayScore])
    by (apply Hin; eauto).
  subst saved. rewrite Hsc. cbn [fold_left]. f_equal.
  unfold built_score, entered_score, pipeline_winner_info, computed_winner,
    fetched_squares.
  cbn. now rewrite Hclock.
Qed.

Lemma pipeline_mirror_is_manual_entry_witness :
  scores (snd (processQuarter Demo.all_well Demo.fresh Demo.contest "q1" 47 23))
  = scores (snd (saveScores Demo.owner_session Demo.fresh "c1"
                   [mkScoreInput "q1" 47 23])).
Proof.
  apply (pipeline_mirror_is_manual_entry Demo.all_well Demo.owner_session
           Demo.fresh Demo.contest "q1" 47 23
           [mkWinnerInfo "q1" 47 23 (Some "s02") (Some "Ann Lee")
              (Some "ann@example.org")]).
  - reflexivity.
  - repeat split.
  - reflexivity.
  - reflexivity.
Defined.

(** ** More on the resolution of quarters *)

Lemma period_loop_firstn (period : Z) :
  period_loop (Z.to_nat (Z.min period 4)) 1 (Z.min period 4) []
  = firstn (Z.to_nat (Z.min period 4)) all_quarters.
Proof.
  assert (H : Z.min period 4 <= 0 \/ Z.min period 4 = 1 \/ Z.min period 4 = 2
              \/ Z.min period 4 = 3 \/ Z.min period 4 = 4) by lia.
  destruct H as [H|[H|[H|[H|H]]]]; try (rewrite H; reflexivity).
  replace (Z.to_nat (Z.min period 4)) with 0%nat by lia. reflexivity.
Qed.

Lemma firstn_all_quarters (n : nat) :
  NoDup (firstn n all_quarters)
  /\ forall m, (n <= m)%nat ->
       exists more, (firstn n all_quarters ++ more)%list = firstn m all_quarters.
Proof.
  assert (Hnd : forall k, NoDup (firstn k all_quarters)).
  { intros k. do 5 (destruct k as [|k]; [cbn; repeat constructor; cbn;
                                         intuition discriminate|]).
    cbn. repeat constructor; cbn; intuition discriminate. }
  split; [apply Hnd|].
  intros m Hle. exists (skipn n (firstn m all_quarters)).
  replace (firstn n all_quarters) with (firstn n (firstn m all_quarters)).
  - apply firstn_skipn.
  - rewrite firstn_firstn. f_equal. lia.
Qed.

(** X14. Without a manual quarter the quarters of a run are a prefix of q1,
    q2, q3, final: in game order and without repetition, so a run meets each
    (contest, quarter) pair at most once; and at a later period the list only
    grows, an earlier quarter is never dropped. With a manual quarter the
    list is that single quarter. *)
Theorem quarters_are_an_ascending_prefix
    (manualQuarter : option string) (status : string) (done : bool) (p p' : Z) :
  let quarters := quarters_of (quartersToProcess manualQuarter status done p) in
  NoDup quarters
  /\ (JS.truthy manualQuarter = false ->
      (exists rest, (quarters ++ rest)%list = all_quarters)
      /\ (p <= p' ->
          exists more,
            (quarters ++ more)%list
            = quarters_of (quartersToProcess manualQuarter status done p')))
  /\ (JS.truthy manualQuarter = true ->
      quartersToProcess manualQuarter status done p
      = Process [JS.get manualQuarter]
      /\ quarters = [JS.get manualQuarter]
      /\ manualQuarter = Some (JS.get manualQuarter)).
Proof.
  intros quarters. subst quarters. unfold quartersToProcess.
  destruct (JS.truthy manualQuarter) eqn:Hm.
  - split; [|split; [discriminate|]].
    + cbn. repeat constructor. cbn. tauto.
    + intros _. repeat split. destruct manualQuarter; [reflexivity|discriminate].
  - match goal with
    | |- ?A /\ ?B /\ _ => assert (Hold : A /\ B)
    end.
    { destruct (String.eqb status "STATUS_FINAL" || done).
      + cbn [quarters_of]. split.
        * repeat constructor; cbn; intuition discriminate.
        * intros _. split; exists []; reflexivity.
      + destruct (String.eqb status "STATUS_END_PERIOD"
                  || String.eqb status "STATUS_HALFTIME").
        * cbn [quarters_of]. rewrite !period_loop_firstn.
          destruct (firstn_all_quarters (Z.to_nat (Z.min p 4))) as [Hnd Hmore].
          split; [exact Hnd|]. intros _. split.
          -- destruct (Hmore 4%nat ltac:(lia)) as (rest & Hrest).
             exists rest. exact Hrest.
          -- intros Hle. apply Hmore. lia.
        * cbn [quarters_of]. split; [constructor|].
          intros _. split; [exists all_quarters|exists []]; reflexivity. }
    destruct Hold as [H1 H2]. split; [exact H1|]. split; [exact H2|discriminate].
Qed.

Lemma quarters_are_an_ascending_prefix_witness :
  (exists more,
     (quarters_of (quartersToProcess None "STATUS_END_PERIOD" false 1) ++ more)%list
     = quarters_of (quartersToProcess None "STATUS_END_PERIOD" false 3))
  /\ quartersToProcess (Some "q3") "STATUS_IN_PROGRESS" false 1 = Process ["q3"].
Proof.
  split.
  - apply (quarters_are_an_ascending_prefix None "STATUS_END_PERIOD" false 1 3).
    + reflexivity.
    + discriminate.
  - apply (quarters_are_an_ascending_prefix (Some "q3") "STATUS_IN_PROGRESS"
             false 1 1).
    reflexivity.
Defined.

(** ** Names *)

Lemma string_app_nil_r (x : string) : x ++ EmptyString = x.
Proof. induction x as [|a t IH]; simpl; [reflexivity|]. now rewrite IH. Qed.

(** X15. The winner's name of the manual entry and the one of the owner
    email agree: whenever [saveScores] gives a name, [buildWinnerName] gives
    the same on the fields recorded for the square; where [saveScores] gives
    none, the owner email reads "Unclaimed Square". A last name without a
    first name is dropped, and [buildWinnerName] is never empty. *)
Theorem winner_names_agree (sq : option SquareRow.t) :
  let first := claimant_or_null SquareRow.claimant_first_name sq in
  let last := claimant_or_null SquareRow.claimant_last_name sq in
  (forall n, saveScores_winnerName sq = Some n -> buildWinnerName first last = n)
  /\ (saveScores_winnerName sq = None ->
      buildWinnerName first last = "Unclaimed Square")
  /\ (forall l, buildWinnerName None l = "Unclaimed Square")
  /\ (forall f l, buildWinnerName f l <> EmptyString).
Proof.
  intros first last. subst first last.
  assert (Hget : forall o, JS.truthy o = true -> JS.get (JS.or_null o) = JS.get o
                                                 /\ JS.truthy (JS.or_null o) = true).
  { intros o Ho. unfold JS.or_null. rewrite Ho. auto. }
  assert (Hnot : forall o, JS.truthy o = false -> JS.truthy (JS.or_null o) = false).
  { intros o Ho. unfold JS.or_null. now rewrite Ho. }
  split; [|split; [|split]].
  - intros n. destruct sq as [s|]; cbn; [|discriminate].
    unfold buildWinnerName.
    destruct (JS.truthy (SquareRow.claimant_first_name s)) eqn:Hf; [|discriminate].
    destruct (Hget _ Hf) as [-> ->]. cbn [negb].
    destruct (JS.truthy (SquareRow.claimant_last_name s)) eqn:Hl.
    + destruct (Hget _ Hl) as [-> ->]. now intros [= <-].
    + rewrite (Hnot _ Hl). rewrite string_app_nil_r. now intros [= <-].
  - destruct sq as [s|]; cbn; [|reflexivity].
    unfold buildWinnerName.
    destruct (JS.truthy (SquareRow.claimant_first_name s)) eqn:Hf; [discriminate|].
    now rewrite (Hnot _ Hf).
  - reflexivity.
  - intros f l. unfold buildWinnerName.
    destruct f as [x|]; cbn; [|discriminate].
    destruct x as [|a x]; cbn; [discriminate|].
    destruct (JS.truthy l); discriminate.
Qed.

Lemma winner_names_agree_witness :
  buildWinnerName
    (claimant_or_null SquareRow.claimant_first_name (Some Demo.claimed))
    (claimant_or_null SquareRow.claimant_last_name (Some Demo.claimed))
  = "Ann Lee".
Proof.
  apply (winner_names_agree (Some Demo.claimed)). reflexivity.
Defined.

(** ** More on the contest loop *)



(** ** What a whole run keeps *)

Section RunInvariants.











End RunInvariants.


(** ** processGameComplete *)

Lemma processGameComplete_cases (genv : GameEnv) (w : World)
    (contest : ContestRow.t) :
  let w' := processGameComplete genv w contest in
  (rows_of (ContestRow.id contest) w = []
   \/ JS.truthy (ownerEmail (game_owner genv)) = false) /\ w' = w
  \/ rows_of (ContestRow.id contest) w <> []
     /\ JS.truthy (ownerEmail (game_owner genv)) = true
     /\ w' = mkWorld (squares w) (quarter_results w) (scores w)
               (journal w
                ++ [SendEmail
                      (mkEmail FinalSummary (JS.get (ownerEmail (game_owner genv)))
                         (ownerName (game_owner genv)) (ContestRow.name contest)
                         EmptyString 0 0 EmptyString
                         (totalPayout (rows_of (ContestRow.id contest) w)))
                      (summary_accepted genv);
                    UpdateContestStatus (ContestRow.id contest) "completed"]).
Proof.
  unfold processGameComplete, rows_of.
  destruct (filter _ (quarter_results w)) as [|r t] eqn:Hrows.
  - left. auto.
  - destruct (JS.truthy (ownerEmail (game_owner genv))) eqn:Ho; cbn [negb].
    + right. split; [discriminate|]. split; [reflexivity|].
      unfold send_email. cbn [squares quarter_results scores journal].
      now rewrite <- app_assoc.
    + left. auto.
Qed.






(** ** The handler as a whole *)

(** Whatever holds across every write of a run holds across the run. *)
Section RunSteps.

Variable R : World -> World -> Prop.
Variable espn : EspnScores.
Hypothesis R_refl : forall w, R w w.
Hypothesis R_trans : forall w1 w2 w3, R w1 w2 -> R w2 w3 -> R w1 w3.
Hypothesis R_log : forall w entry, R w (insert_log w entry).
Hypothesis R_call :
  forall env w contest quarter,
    R w (snd (processQuarter env w contest quarter (espn_homeScore espn)
                (espn_awayScore espn))).
Hypothesis R_complete :
  forall genv w contest, R w (processGameComplete genv w contest).
Hypothesis R_finished :
  forall w, R w (mkWorld (squares w) (quarter_results w) (scores w)
                   (journal w ++ [UpdateConfigGameFinished])).

Lemma steps_process_quarters (oracle : string -> string -> Env)
    (contest : ContestRow.t) (quarters : list string) :
  forall (w : World) (results : list ResultEntry),
    R w (snd (process_quarters oracle w contest quarters (espn_homeScore espn)
                (espn_awayScore espn) results)).
Proof.
  induction quarters as [|q rest IH]; intros w results; cbn [process_quarters].
  - apply R_refl.
  - pose proof (R_call (oracle (ContestRow.id contest) q) w contest q) as Hc.
    destruct (processQuarter (oracle (ContestRow.id contest) q) w contest q
                (espn_homeScore espn) (espn_awayScore espn)) as [result w1].
    cbn [snd] in Hc. eapply R_trans; [exact Hc|].
    eapply R_trans; [|apply IH].
    destruct (JS.truthy (process_error result)); [apply R_log|].
    destruct (processed result); [apply R_log|apply R_refl].
Qed.

Lemma steps_process_contests (oracle : string -> string -> Env)
    (quarters : list string) (contests : list ContestRow.t) :
  forall (w : World) (results : list ResultEntry),
    R w (snd (process_contests oracle w contests quarters (espn_homeScore espn)
                (espn_awayScore espn) results)).
Proof.
  induction contests as [|c rest IH]; intros w results; cbn [process_contests].
  - apply R_refl.
  - destruct (numbers_missing c); [apply IH|].
    pose proof (steps_process_quarters oracle c quarters w results) as Hq.
    destruct (process_quarters oracle w c quarters (espn_homeScore espn)
                (espn_awayScore espn) results) as [results1 w1].
    cbn [snd] in Hq. eapply R_trans; [exact Hq|apply IH].
Qed.

Lemma steps_complete_contests (goracle : string -> GameEnv)
    (contests : list ContestRow.t) :
  forall w : World, R w (complete_contests goracle w contests).
Proof.
  induction contests as [|c rest IH]; intros w; cbn [complete_contests].
  - apply R_refl.
  - eapply R_trans; [apply R_complete|]. eapply R_trans; [apply R_log|apply IH].
Qed.

Lemma steps_serve_contests (oracle : string -> string -> Env)
    (goracle : string -> GameEnv) (contests_fetch : Fetch (list ContestRow.t))
    (quarters : list string) (w : World) :
  R w (snd (serve_contests oracle goracle contests_fetch quarters espn w)).
Proof.
  unfold serve_contests.
  destruct (is_empty quarters); [apply R_refl|].
  destruct (error contests_fetch); [apply R_log|].
  destruct (data contests_fetch) as [contests|]; [|apply R_log].
  destruct (is_empty contests); [apply R_log|].
  pose proof (steps_process_contests oracle quarters contests w []) as Hp.
  destruct (process_contests oracle w contests quarters (espn_homeScore espn)
              (espn_awayScore espn) []) as [results w1].
  cbn [snd] in *. eapply R_trans; [exact Hp|].
  destruct (String.eqb (statusName espn) "STATUS_FINAL" || completed espn);
    [|apply R_refl].
  eapply R_trans; [apply steps_complete_contests|apply R_finished].
Qed.

Lemma steps_serve_quarters (oracle : string -> string -> Env)
    (goracle : string -> GameEnv) (contests_fetch : Fetch (list ContestRow.t))
    (manualQuarter : option string) (w : World) :
  R w (snd (serve_quarters oracle goracle contests_fetch manualQuarter espn w)).
Proof.
  unfold serve_quarters.
  destruct (quartersToProcess manualQuarter (statusName espn) (completed espn)
              (period espn)); cbn [snd];
    first [apply steps_serve_contests | apply R_refl].
Qed.

End RunSteps.


Section Serve.

Variables (vars : EnvVars) (outcome : EspnOutcome)
          (oracle : string -> string -> Env) (goracle : string -> GameEnv)
          (contests_fetch : Fetch (list ContestRow.t)) (at_ : Z).

Lemma parse_trigger_eq (req : Request) :
  parse_trigger req = (fst (parse_trigger req), forces req).
Proof. unfold forces. now destruct (parse_trigger req). Qed.

(** The handler on a request that passes the method check, with the
    environment complete and the configuration row found. *)
Lemma serve_admitted (req : Request) (sv : Server) (cfg : Config) :
  admitted vars req = true ->
  config sv = Some cfg ->
  serve vars outcome oracle goracle contests_fetch at_ req sv
  = if negb (enabled cfg) && negb (forces req) then (disabled, sv)
    else if game_finished cfg && negb (forces req) then (finished, sv)
    else serve_game outcome oracle goracle contests_fetch at_
           (fst (parse_trigger req)) cfg (store sv).
Proof.
  unfold admitted, serve. intros Ha Hc.
  apply andb_true_iff in Ha. destruct Ha as [Hm He].
  rewrite <- negb_orb, Hm. cbn [negb].
  rewrite (parse_trigger_eq req), He, Hc. reflexivity.
Qed.

Lemma serve_gated (req : Request) (sv : Server) (cfg : Config) :
  admitted vars req = true ->
  config sv = Some cfg ->
  forces req = false ->
  enabled cfg = false \/ game_finished cfg = true ->
  serve vars outcome oracle goracle contests_fetch at_ req sv
  = (if enabled cfg then finished else disabled, sv).
Proof.
  intros Ha Hc Hf Hg. rewrite (serve_admitted req sv cfg Ha Hc), Hf.
  destruct (enabled cfg), (game_finished cfg); cbn; try reflexivity.
  destruct Hg; discriminate.
Qed.

Lemma forces_iff (req : Request) :
  forces req = true <->
  method req = "POST" /\ exists q, body req = Some (mkBody q true).
Proof.
  unfold forces, parse_trigger. split.
  - destruct (String.eqb (method req) "POST") eqn:Hm; [|discriminate].
    apply String.eqb_eq in Hm.
    destruct (body req) as [[q f]|]; cbn; [|discriminate].
    intros ->. split; [exact Hm|]. now exists q.
  - intros [-> [q ->]]. reflexivity.
Qed.

End Serve.

(** X20. Without force the two gates hold: on a configuration that is
    switched off the handler answers [disabled], on one that is switched on
    and whose game is finished it answers [finished], and in both cases it
    does nothing else: the store and the configuration are as before, the
    scoreboard's answer plays no part. A request forces only when it is a
    POST whose body has [force] true; a GET never does. *)
Theorem gates_stop_unforced_requests
    (vars : EnvVars) (outcome : EspnOutcome) (oracle : string -> string -> Env)
    (goracle : string -> GameEnv) (contests_fetch : Fetch (list ContestRow.t))
    (at_ : Z) (req : Request) (sv : Server) (cfg : Config) :
  admitted vars req = true ->
  config sv = Some cfg ->
  enabled cfg = false \/ game_finished cfg = true ->
  (forces req = false ->
   serve vars outcome oracle goracle contests_fetch at_ req sv
   = (if enabled cfg then finished else disabled, sv))
  /\ (forces req = true <->
      method req = "POST" /\ exists q, body req = Some (mkBody q true)).
Proof.
  intros Ha Hc Hg. split.
  - intros Hf. now apply serve_gated.
  - apply forces_iff.
Qed.

Lemma gates_stop_unforced_requests_witness :
  serve Board.vars (espn_found Board.game_over) Demo.oracle Demo.goracle
    Board.contests 1000 Board.cron (mkServer Demo.fresh (Some Board.switched_off))
  = (disabled, mkServer Demo.fresh (Some Board.switched_off)).
Proof.
  refine (proj1 (gates_stop_unforced_requests Board.vars
            (espn_found Board.game_over) Demo.oracle Demo.goracle Board.contests
            1000 Board.cron (mkServer Demo.fresh (Some Board.switched_off))
            Board.switched_off _ _ _) _).
  - reflexivity.
  - reflexivity.
  - left. reflexivity.
  - reflexivity.
Defined.

(** X21. With force the handler does not read the two gates: a forced
    request gets the same response and leaves the same store as on a
    configuration that is switched on and not finished, so it is never
    answered [disabled] or [finished]; and it leaves the switch as it was. *)
Theorem force_ignores_gates
    (vars : EnvVars) (outcome : EspnOutcome) (oracle : string -> string -> Env)
    (goracle : string -> GameEnv) (contests_fetch : Fetch (list ContestRow.t))
    (at_ : Z) (req : Request) (sv : Server) (cfg : Config) :
  admitted vars req = true ->
  config sv = Some cfg ->
  forces req = true ->
  let opened :=
    mkServer (store sv)
      (Some (mkConfig true false (last_checked_at cfg) (last_status cfg)
               (last_period cfg))) in
  let out := serve vars outcome oracle goracle contests_fetch at_ req sv in
  let out' := serve vars outcome oracle goracle contests_fetch at_ req opened in
  fst out = fst out'
  /\ store (snd out) = store (snd out')
  /\ fst out <> disabled
  /\ fst out <> finished
  /\ option_map enabled (config (snd out)) = Some (enabled cfg).
Proof.
  intros Ha Hc Hf opened out out'. subst out out'.
  rewrite (serve_admitted vars outcome oracle goracle contests_fetch at_ req sv cfg
             Ha Hc).
  rewrite (serve_admitted vars outcome oracle goracle contests_fetch at_ req opened
             _ Ha eq_refl).
  rewrite Hf. cbn [negb andb enabled game_finished]. rewrite !andb_false_r.
  unfold serve_game, opened; cbn [store].
  destruct outcome as [message| |espn]; cbn.
  - repeat split; discriminate.
  - repeat split; discriminate.
  - destruct (serve_quarters oracle goracle contests_fetch (fst (parse_trigger req))
                espn _) as [r w2]; cbn.
    repeat split; try discriminate. now destruct (marks_finished r).
Qed.

Lemma force_ignores_gates_witness :
  fst (serve Board.vars (espn_found Board.second_quarter) Demo.oracle Demo.goracle
         Board.contests 1000 Board.forced (mkServer Demo.fresh (Some Board.over)))
  <> finished.
Proof.
  exact (proj1 (proj2 (proj2 (proj2
    (force_ignores_gates Board.vars (espn_found Board.second_quarter) Demo.oracle
       Demo.goracle Board.contests 1000 Board.forced
       (mkServer Demo.fresh (Some Board.over)) Board.over
       eq_refl eq_refl eq_refl))))).
Defined.


(** ** What a request can change *)






Lemma run_marks (oracle : string -> string -> Env)
    (goracle : string -> GameEnv) (contests_fetch : Fetch (list ContestRow.t))
    (manualQuarter : option string) (espn : EspnScores) (w : World) :
  marks_finished
    (fst (serve_quarters oracle goracle contests_fetch manualQuarter espn w)) = true ->
  statusName espn = "STATUS_FINAL" \/ completed espn = true.
Proof.
  unfold serve_quarters, serve_contests.
  destruct (quartersToProcess _ _ _ _) as [quarters|]; cbn; [|discriminate].
  destruct (is_empty quarters); cbn; [discriminate|].
  destruct (error contests_fetch); cbn; [discriminate|].
  destruct (data contests_fetch) as [contests|]; cbn; [|discriminate].
  destruct (is_empty contests); cbn; [discriminate|].
  destruct (process_contests _ _ _ _ _ _ _) as [results w1]; cbn.
  intros H. apply orb_true_iff in H. destruct H as [H|H]; [left|now right].
  now apply String.eqb_eq.
Qed.

Lemma new_effects_log (w : World) (entry : LogEntry) :
  new_effects w (insert_log w entry) = [InsertLog entry].
Proof. now apply new_effects_app. Qed.


(** X23. The game is marked finished by a run that reached the contests of
    a game the feed reports as final, and by nothing else in the handler: a
    final game with no active contest, or whose contests could not be
    fetched, is not marked. Once marked, every later request without force
    is answered [finished] (or [disabled]) and changes nothing. *)
Theorem finished_is_terminal
    (vars : EnvVars) (outcome : EspnOutcome) (oracle : string -> string -> Env)
    (goracle : string -> GameEnv) (contests_fetch : Fetch (list ContestRow.t))
    (at_ : Z) (req : Request) (sv : Server) (cfg : Config) :
  admitted vars req = true ->
  config sv = Some cfg ->
  let out := serve vars outcome oracle goracle contests_fetch at_ req sv in
  exists cfg',
    config (snd out) = Some cfg'
    /\ enabled cfg' = enabled cfg
    /\ game_finished cfg' = game_finished cfg || finishes (fst out)
    /\ (finishes (fst out) = true ->
        processed_run (fst out) = true
        /\ exists espn,
             outcome = espn_found espn
             /\ (statusName espn = "STATUS_FINAL" \/ completed espn = true))
    /\ (game_finished cfg' = true ->
        forall vars' outcome' oracle' goracle' contests_fetch' at' req',
          admitted vars' req' = true ->
          forces req' = false ->
          serve vars' outcome' oracle' goracle' contests_fetch' at' req' (snd out)
          = (if enabled cfg then finished else disabled, snd out)).
Proof.
  intros Ha Hc out.
  assert (Hlater : forall cfg',
             config (snd out) = Some cfg' -> enabled cfg' = enabled cfg ->
             game_finished cfg' = true ->
             forall vars' outcome' oracle' goracle' contests_fetch' at' req',
               admitted vars' req' = true ->
               forces req' = false ->
               serve vars' outcome' oracle' goracle' contests_fetch' at' req' (snd out)
               = (if enabled cfg then finished else disabled, snd out)).
  { intros cfg' Hc' He Hg vars' outcome' oracle' goracle' cf' at' req' Ha' Hf'.
    rewrite <- He. apply serve_gated; auto. }
  revert Hlater. subst out.
  rewrite (serve_admitted vars outcome oracle goracle contests_fetch at_ req sv cfg
             Ha Hc).
  destruct (negb (enabled cfg) && negb (forces req)); cbn [fst snd].
  { intros Hl. exists cfg. rewrite orb_false_r.
    repeat split; try discriminate; try assumption. intros Hg. eapply Hl; eauto. }
  destruct (game_finished cfg && negb (forces req)); cbn [fst snd].
  { intros Hl. exists cfg. rewrite orb_false_r.
    repeat split; try discriminate; try assumption. intros Hg. eapply Hl; eauto. }
  unfold serve_game. destruct outcome as [message| |espn]; cbn [fst snd config].
  - intros Hl. exists cfg. rewrite orb_false_r.
    repeat split; try discriminate. intros Hg. eapply Hl; eauto.
  - intros Hl. eexists. split; [reflexivity|]. cbn. rewrite orb_false_r.
    repeat split; try discriminate. intros Hg. eapply Hl; eauto.
  - pose proof (run_marks oracle goracle contests_fetch (fst (parse_trigger req))
                  espn (insert_log (store sv)
                          (mkLog "check_scores" "success" None None None))) as Hm.
    destruct (serve_quarters _ _ _ _ _ _) as [r w2]. cbn [fst snd config finishes] in *.
    intros Hl. eexists. split; [reflexivity|].
    split; [now destruct (marks_finished r)|].
    split; [destruct (marks_finished r); cbn; now rewrite ?orb_true_r, ?orb_false_r|].
    split.
    + intros Hf. split; [destruct r; try discriminate; reflexivity|].
      exists espn. split; [reflexivity|now apply Hm].
    + intros Hg. eapply Hl; [reflexivity| |exact Hg].
      now destruct (marks_finished r).
Qed.

Lemma finished_is_terminal_witness :
  exists cfg',
    config (snd (Board.edge Board.game_over Board.cron
                   (mkServer Demo.fresh (Some Board.switched_on)))) = Some cfg'
    /\ game_finished cfg' = true.
Proof.
  destruct (finished_is_terminal Board.vars (espn_found Board.game_over)
              Demo.oracle Demo.goracle Board.contests 1000 Board.cron
              (mkServer Demo.fresh (Some Board.switched_on)) Board.switched_on
              eq_refl eq_refl) as [cfg' [Hc [_ [Hg _]]]].
  exists cfg'. split; [exact Hc|]. rewrite Hg. reflexivity.
Defined.

(** A final game without an active contest is not marked finished. *)
Example final_game_without_contests :
  let out :=
    serve Board.vars (espn_found Board.game_over) Demo.oracle Demo.goracle
      (mkFetch (Some []) None) 1000 Board.cron
      (mkServer Demo.fresh (Some Board.switched_on)) in
  fst out = run_response no_contests
  /\ option_map game_finished (config (snd out)) = Some false.
Proof. split; reflexivity. Qed.


(** ** The scores a run records *)

Lemma upserted_app (l d : list Effect) :
  upserted (l ++ d) = (upserted l ++ upserted d)%list.
Proof.
  induction l as [|e t IH]; [reflexivity|].
  destruct e; cbn; now rewrite IH.
Qed.

Lemma upserted_run (env : Env) (w : World) (contest : ContestRow.t)
    (quarter : string) (homeScore awayScore : Z) :
  upserted (run_effects env w contest quarter homeScore awayScore)
  = [built_result w contest quarter homeScore awayScore].
Proof.
  unfold run_effects, winner_effects, owner_effects.
  destruct (sends_winner w contest quarter homeScore awayScore),
           (sends_owner env w contest quarter); reflexivity.
Qed.

(** X24. Every result a run upserts carries the scores of this fetch and
    their last digits, whatever its quarter: a quarter that is caught up
    late, at a later boundary or once the game is final, is recorded with
    the score at the time of the run. *)
Theorem run_stamps_current_score
    (oracle : string -> string -> Env) (goracle : string -> GameEnv)
    (contests_fetch : Fetch (list ContestRow.t)) (manualQuarter : option string)
    (espn : EspnScores) (w : World) :
  let after :=
    snd (serve_quarters oracle goracle contests_fetch manualQuarter espn w) in
  Forall
    (fun r =>
       QuarterResult.home_score r = espn_homeScore espn
       /\ QuarterResult.away_score r = espn_awayScore espn
       /\ QuarterResult.home_last_digit r = lastDigit (espn_homeScore espn)
       /\ QuarterResult.away_last_digit r = lastDigit (espn_awayScore espn))
    (upserted (new_effects w after)).
Proof.
  cbv zeta.
  set (P := fun r : QuarterResult.t => _ /\ _ /\ _ /\ _).
  assert (H : exists d,
             journal (snd (serve_quarters oracle goracle contests_fetch
                             manualQuarter espn w))
             = (journal w ++ d)%list
             /\ Forall P (upserted d)).
  { apply (steps_serve_quarters
             (fun w w' => exists d, journal w' = (journal w ++ d)%list
                                    /\ Forall P (upserted d)) espn).
    - intros w0. exists []. split; [now rewrite app_nil_r|constructor].
    - intros w1 w2 w3 [d1 [H1 F1]] [d2 [H2 F2]]. exists (d1 ++ d2)%list.
      split; [now rewrite H2, H1, app_assoc|].
      rewrite upserted_app. now apply Forall_app.
    - intros w0 entry. exists [InsertLog entry]. split; [reflexivity|constructor].
    - intros env w0 contest quarter. rewrite call_journal.
      eexists. split; [reflexivity|].
      destruct (runs env w0 contest quarter); [|constructor].
      rewrite upserted_run. constructor; [|constructor].
      unfold P. repeat split.
    - intros genv w0 contest.
      destruct (processGameComplete_cases genv w0 contest) as [[_ ->]|[_ [_ ->]]].
      + exists []. split; [now rewrite app_nil_r|constructor].
      + eexists. split; [reflexivity|constructor].
    - intros w0. eexists. split; [reflexivity|constructor]. }
  destruct H as [d [Hj Hd]]. now rewrite (new_effects_app _ _ _ Hj).
Qed.

(** A poll that first sees the game at halftime records the first quarter
    with the halftime score. *)
Example missed_quarter_gets_later_score :
  map (fun r => (QuarterResult.quarter r, QuarterResult.home_score r,
                 QuarterResult.away_score r))
    (upserted
       (new_effects Demo.fresh
          (snd (serve_quarters Demo.oracle Demo.goracle Board.contests None
                  Board.halftime Demo.fresh))))
  = [("q1", 47, 23); ("q2", 47, 23)].
Proof. reflexivity. Qed.





(** ** The scoreboard *)

Section Scoreboard.

Variable parseInt : string -> option Z.

Lemma find_game_skip (skipped rest : list (option ESPNEvent)) :
  Forall (fun e => game_of_event parseInt e = passes) skipped ->
  find_game parseInt (skipped ++ rest) = find_game parseInt rest.
Proof.
  induction 1 as [|e t He _ IH]; [reflexivity|].
  cbn. now rewrite He.
Qed.

(** The loop is decided by the first entry it does not pass over. *)
Lemma find_game_cases (l : list (option ESPNEvent)) :
  (find_game parseInt l = scoreboard_empty
   /\ Forall (fun e => game_of_event parseInt e = passes) l)
  \/ exists skipped e later,
       l = (skipped ++ e :: later)%list
       /\ Forall (fun e => game_of_event parseInt e = passes) skipped
       /\ ((exists g, game_of_event parseInt e = returns g
                      /\ find_game parseInt l = scoreboard_game g)
           \/ (exists t, game_of_event parseInt e = throws t
                         /\ find_game parseInt l = scoreboard_throws t)).
Proof.
  induction l as [|e rest IH]; [left; split; [reflexivity|constructor]|].
  cbn [find_game]. destruct (game_of_event parseInt e) as [|g|t] eqn:He.
  - destruct IH as [[Hempty Hall]|(skipped & e' & later & -> & Hs & Hcase)].
    + left. split; [exact Hempty|now constructor].
    + right. exists (e :: skipped), e', later.
      split; [reflexivity|]. split; [now constructor|exact Hcase].
  - right. exists [], e, rest. split; [reflexivity|]. split; [constructor|].
    left. exists g. now split.
  - right. exists [], e, rest. split; [reflexivity|]. split; [constructor|].
    right. exists t. now split.
Qed.

(** What makes the loop pass over an event, return it, or throw on it. *)
Lemma game_of_event_kinds (event : ESPNEvent) :
  (game_of_event parseInt (Some event) = passes
   \/ (exists t, game_of_event parseInt (Some event) = throws t))
  /\ (is_candidate event && has_both_sides event = false)
  \/ (exists g, game_of_event parseInt (Some event) = returns g)
     /\ is_candidate event && has_both_sides event = true.
Proof.
  unfold game_of_event, has_both_sides.
  destruct (is_candidate event); cbn [andb]; [|left; split; [now left|reflexivity]].
  destruct (competitions event) as [[|[comp|] rest]|];
    try (left; split; [now left|reflexivity]).
  destruct (find_side "home" (competitors comp)) as [h| |],
           (find_side "away" (competitors comp)) as [a| |];
    try (left; split; [(now left) || (right; eauto)|reflexivity]).
  right. split; [eauto|reflexivity].
Qed.

(** X26. [fetchESPNScores] is decided by the first entry of the feed that
    its loop does not pass over. An event is returned as the game exactly
    when it is of the postseason, or has 'super bowl' in its name in any
    letter case, and its first competition lists a home and an away
    competitor, no null entry being met before either; the entries after it
    play no part, so a postseason game listed before the Super Bowl is the
    game reported. The function finds no game exactly when the loop passes
    over every entry. It throws when [fetch] rejects, when the answer is
    not ok, when the body is not JSON or is null, and when the first entry
    not passed over is null or has a null competitor in the way. *)
Theorem scoreboard_reports_first_usable_event
    (status : string) (events : option (list (option ESPNEvent))) :
  let answer := responds status true (document events) in
  let listed := listed_events events in
  (fetchESPNScores parseInt answer = scoreboard_empty
   <-> Forall (fun e => game_of_event parseInt e = passes) listed)
  /\ (forall skipped e later,
        listed = (skipped ++ e :: later)%list ->
        Forall (fun e => game_of_event parseInt e = passes) skipped ->
        (forall g,
            game_of_event parseInt e = returns g ->
            fetchESPNScores parseInt answer = scoreboard_game g
            /\ fetchESPNScores parseInt (responds status true (document (Some [e])))
               = scoreboard_game g)
        /\ (forall t,
              game_of_event parseInt e = throws t ->
              fetchESPNScores parseInt answer = scoreboard_throws t))
  /\ (forall event,
        (exists g, game_of_event parseInt (Some event) = returns g)
        <-> is_candidate event && has_both_sides event = true)
  /\ game_of_event parseInt None = throws (thrown_null "season")
  /\ (forall text,
        fetchESPNScores parseInt (fetch_rejects text)
        = scoreboard_throws (thrown_by_fetch text))
  /\ (forall body,
        fetchESPNScores parseInt (responds status false body)
        = scoreboard_throws (thrown_status status))
  /\ (forall text,
        fetchESPNScores parseInt (responds status true (not_json text))
        = scoreboard_throws (thrown_by_json text))
  /\ fetchESPNScores parseInt (responds status true null_document)
     = scoreboard_throws (thrown_null "events").
Proof.
  intros answer listed. subst answer. cbn [fetchESPNScores negb]. fold listed.
  split; [|split; [|split; [|repeat split]]].
  - split.
    + intros Hempty.
      destruct (find_game_cases listed)
        as [[_ Hall]|(skipped & e & later & _ & _ & [(g & _ & Hg)|(t & _ & Ht)])];
        [exact Hall|congruence|congruence].
    + intros Hall.
      destruct (find_game_cases listed)
        as [[Hempty _]|(skipped & e & later & Hl & _ & Hcase)]; [exact Hempty|].
      rewrite Hl in Hall. apply Forall_app in Hall. destruct Hall as [_ Hall].
      inversion Hall as [|? ? He _]; subst.
      destruct Hcase as [(g & Hg & _)|(t & Ht & _)]; congruence.
  - intros skipped e later Hl Hs. rewrite Hl, (find_game_skip skipped _ Hs).
    cbn [find_game listed_events]. split.
    + intros g ->. split; reflexivity.
    + intros t ->. reflexivity.
  - intros event.
    destruct (game_of_event_kinds event) as [[Hk Hb]|[Hk Hb]]; rewrite Hb.
    + split; [|discriminate]. intros [g Hg].
      destruct Hk as [Hk|[t Hk]]; congruence.
    + split; [reflexivity|]. intros _. exact Hk.
Qed.

Lemma seek_filter (side : string) (l : list ESPNCompetitor) :
  seek side (map Some l)
  = match filter (fun c => String.eqb (homeAway c) side) l with
    | c :: _ => sought c
    | [] => not_listed
    end.
Proof.
  induction l as [|x t IH]; [reflexivity|]. cbn.
  now destruct (String.eqb (homeAway x) side).
Qed.

Lemma filter_permutation {A : Type} (P : A -> bool) (l l' : list A) :
  Permutation l l' -> Permutation (filter P l) (filter P l').
Proof.
  induction 1 as [|x l l' _ IH|x y l|l1 l2 l3 _ IH1 _ IH2]; cbn.
  - constructor.
  - destruct (P x); [now constructor|exact IH].
  - destruct (P x), (P y); try apply Permutation_refl. apply perm_swap.
  - now apply Permutation_trans with (filter P l2).
Qed.

Lemma seek_permutation (side : string) (l l' : list ESPNCompetitor) :
  Permutation l l' ->
  (List.length (filter (fun c => String.eqb (homeAway c) side) l) <= 1)%nat ->
  seek side (map Some l') = seek side (map Some l).
Proof.
  intros Hp Hlen. rewrite !seek_filter.
  pose proof (filter_permutation (fun c => String.eqb (homeAway c) side) l l' Hp)
    as Hf.
  destruct (filter _ l) as [|x [|y t]] eqn:E.
  - apply Permutation_nil in Hf. now rewrite Hf.
  - apply Permutation_length_1_inv in Hf. now rewrite Hf.
  - cbn in Hlen. lia.
Qed.

Lemma seek_sought (side : string) (l : list ESPNCompetitor) (c : ESPNCompetitor) :
  seek side (map Some l) = sought c -> In c l /\ homeAway c = side.
Proof.
  induction l as [|x t IH]; cbn; [discriminate|].
  destruct (String.eqb (homeAway x) side) eqn:E.
  - intros [= <-]. split; [now left|now apply String.eqb_eq].
  - intros H. destruct (IH H). split; [now right|assumption].
Qed.

(** X27. The sides of the game are read by their marker, not by their
    place: when the competition lists at most one home and at most one away
    competitor, listing the competitors in another order gives the same
    report; the home score is the one parsed from the competitor marked
    home, 0 being parsed when it has no score. *)
Theorem sides_are_read_by_marker
    (name season : option string) (st : option ESPNStatus)
    (others : list (option ESPNCompetition))
    (listed listed' : list ESPNCompetitor) :
  Permutation listed listed' ->
  (List.length (filter (fun c => String.eqb (homeAway c) "home") listed) <= 1)%nat ->
  (List.length (filter (fun c => String.eqb (homeAway c) "away") listed) <= 1)%nat ->
  let report l :=
    game_of_event parseInt
      (Some (mkEvent name season
               (Some (Some (mkCompetition st (Some (map Some l))) :: others)))) in
  report listed' = report listed
  /\ forall g,
       report listed = returns g ->
       exists h a,
         In h listed /\ homeAway h = "home"
         /\ In a listed /\ homeAway a = "away"
         /\ game_homeScore g = parseInt (JS.or_else (score h) "0")
         /\ game_awayScore g = parseInt (JS.or_else (score a) "0")
         /\ homeTeam g = JS.or_else (team_displayName h) "Home"
         /\ awayTeam g = JS.or_else (team_displayName a) "Away".
Proof.
  intros Hp Hh Ha report. split.
  - unfold report, game_of_event.
    cbn [is_candidate competitions competitors find_side event_name
         season_type_name].
    now rewrite (seek_permutation _ _ _ Hp Hh), (seek_permutation _ _ _ Hp Ha).
  - intros g. unfold report, game_of_event.
    destruct (is_candidate _); [|discriminate].
    cbn [competitions competitors find_side].
    destruct (seek "home" (map Some listed)) as [h| |] eqn:Eh;
      destruct (seek "away" (map Some listed)) as [a| |] eqn:Ea;
      try discriminate.
    intros [= <-]. exists h, a.
    apply seek_sought in Eh. apply seek_sought in Ea.
    destruct Eh as [Ih Eh], Ea as [Ia Ea].
    repeat split; assumption.
Qed.

End Scoreboard.

Lemma sides_are_read_by_marker_witness :
  game_of_event Board.parseInt (Some Board.super_bowl)
  = game_of_event Board.parseInt
      (Some (mkEvent (Some "Super Bowl LIX") (Some "Postseason")
               (Some [Some (mkCompetition (Some Board.ended)
                              (Some [Some Board.chiefs; Some Board.eagles]))]))).
Proof.
  refine (proj1 (sides_are_read_by_marker Board.parseInt (Some "Super Bowl LIX")
                   (Some "Postseason") (Some Board.ended) []
                   [Board.chiefs; Board.eagles] [Board.eagles; Board.chiefs]
                   _ _ _)).
  - apply perm_swap.
  - cbn. lia.
  - cbn. lia.
Defined.

(** The championship game, listed first, is the game reported. *)
Example postseason_game_listed_first :
  fetchESPNScores Board.parseInt
    (responds "200" true
       (document
          (Some [Some Board.regular_game;
                 Some (mkEvent (Some "AFC Championship") (Some "Postseason")
                         (Some [Some (mkCompetition None
                                        (Some [Some Board.chiefs;
                                               Some Board.eagles]))]));
                 Some Board.super_bowl])))
  = scoreboard_game (mkGame 0 EmptyString EmptyString false (Some 47) (Some 23)
                       "Chiefs" "Eagles").
Proof. reflexivity. Qed.

(** A null entry listed before the game makes the function throw; listed
    after it, the entry is never read. *)
Example null_event_before_and_after :
  fetchESPNScores Board.parseInt
    (responds "200" true (document (Some [None; Some Board.super_bowl])))
  = scoreboard_throws (thrown_null "season")
  /\ exists g,
       fetchESPNScores Board.parseInt
         (responds "200" true (document (Some [Some Board.super_bowl; None])))
       = scoreboard_game g.
Proof. split; [reflexivity|eexists; reflexivity]. Qed.

(** ** Between two boundaries *)

Lemma quartersToProcess_idle (manualQuarter : option string) (espn : EspnScores) :
  JS.truthy manualQuarter = false ->
  at_boundary (statusName espn) (completed espn) = false ->
  quartersToProcess manualQuarter (statusName espn) (completed espn) (period espn)
  = InProgress.
Proof.
  unfold quartersToProcess, at_boundary. intros -> H.
  apply orb_false_iff in H. destruct H as [H H3].
  apply orb_false_iff in H. destruct H as [H H2].
  now rewrite H, H2, H3.
Qed.

(** The handler on a game that is not at a boundary, past its gates. *)
Lemma serve_idle (vars : EnvVars) (oracle : string -> string -> Env)
    (goracle : string -> GameEnv) (contests_fetch : Fetch (list ContestRow.t))
    (at_ : Z) (req : Request) (sv : Server) (cfg : Config) (espn : EspnScores) :
  admitted vars req = true ->
  config sv = Some cfg ->
  JS.truthy (fst (parse_trigger req)) = false ->
  at_boundary (statusName espn) (completed espn) = false ->
  enabled cfg = true /\ game_finished cfg = false \/ forces req = true ->
  serve vars (espn_found espn) oracle goracle contests_fetch at_ req sv
  = (run_response (in_progress (period espn) (statusName espn)),
     mkServer
       (insert_log (store sv) (mkLog "check_scores" "success" None None None))
       (Some (update_last_checked cfg (espn_found espn) at_))).
Proof.
  intros Ha Hc Hm Hb Hg.
  rewrite (serve_admitted vars (espn_found espn) oracle goracle contests_fetch at_
             req sv cfg Ha Hc).
  assert (Hg1 : negb (enabled cfg) && negb (forces req) = false).
  { destruct Hg as [[-> _]| ->]; [reflexivity|apply andb_false_r]. }
  assert (Hg2 : game_finished cfg && negb (forces req) = false).
  { destruct Hg as [[_ ->]| ->]; [reflexivity|apply andb_false_r]. }
  rewrite Hg1, Hg2. unfold serve_game, serve_quarters.
  now rewrite (quartersToProcess_idle _ espn Hm Hb).
Qed.

(** X28. While the feed reports neither the end of a quarter nor the end of
    the game, a request without a manual quarter processes nothing: the
    handler answers [in_progress] with the period and status of the game
    that [fetchESPNScores] found, writes only the log entry of the check and
    changes no result row and no score; the game is not marked finished. *)
Theorem unended_game_is_not_processed
    (parseInt : string -> option Z) (answer : ESPNAnswer) (g : GameFound)
    (outcome : EspnOutcome) (vars : EnvVars) (oracle : string -> string -> Env)
    (goracle : string -> GameEnv) (contests_fetch : Fetch (list ContestRow.t))
    (at_ : Z) (req : Request) (sv : Server) (cfg : Config) :
  fetchESPNScores parseInt answer = scoreboard_game g ->
  outcome_of (fetchESPNScores parseInt answer) = Some outcome ->
  at_boundary (game_statusName g) (game_completed g) = false ->
  admitted vars req = true ->
  config sv = Some cfg ->
  JS.truthy (fst (parse_trigger req)) = false ->
  enabled cfg = true /\ game_finished cfg = false \/ forces req = true ->
  let out := serve vars outcome oracle goracle contests_fetch at_ req sv in
  fst out = run_response (in_progress (game_period g) (game_statusName g))
  /\ quarter_results (store (snd out)) = quarter_results (store sv)
  /\ scores (store (snd out)) = scores (store sv)
  /\ new_effects (store sv) (store (snd out))
     = [InsertLog (mkLog "check_scores" "success" None None None)]
  /\ option_map game_finished (config (snd out)) = Some (game_finished cfg).
Proof.
  intros Hf Ho Hb Ha Hc Hm Hg out. subst out.
  rewrite Hf in Ho. cbn [outcome_of] in Ho.
  destruct (game_homeScore g) as [h|]; [|discriminate].
  destruct (game_awayScore g) as [a|]; [|discriminate].
  injection Ho as <-.
  rewrite (serve_idle vars oracle goracle contests_fetch at_ req sv cfg
             (mkEspn (game_period g) (game_statusName g) (game_completed g) h a)
             Ha Hc Hm Hb Hg).
  cbn [fst snd store config period statusName]. repeat split.
  apply new_effects_log.
Qed.

Lemma unended_game_is_not_processed_witness :
  fst (serve Board.vars (espn_found (mkEspn 2 "STATUS_IN_PROGRESS" false 14 10))
         Demo.oracle Demo.goracle Board.contests 1000 Board.cron
         (mkServer Demo.fresh (Some Board.switched_on)))
  = run_response (in_progress 2 "STATUS_IN_PROGRESS").
Proof.
  refine (proj1 (unended_game_is_not_processed Board.parseInt
            (responds "200" true
               (document
                  (Some [Some (mkEvent (Some "Super Bowl LIX") (Some "Postseason")
                     (Some [Some (mkCompetition
                              (Some (mkStatus (Some 2) (Some "STATUS_IN_PROGRESS")
                                       (Some "2nd Quarter") (Some false)))
                              (Some [Some (mkCompetitor "home" (Some "Chiefs")
                                             (Some "14"));
                                     Some (mkCompetitor "away" (Some "Eagles")
                                             (Some "10"))]))]))])))
            (mkGame 2 "STATUS_IN_PROGRESS" "2nd Quarter" false (Some 14) (Some 10)
               "Chiefs" "Eagles")
            (espn_found (mkEspn 2 "STATUS_IN_PROGRESS" false 14 10))
            Board.vars Demo.oracle Demo.goracle Board.contests 1000 Board.cron
            (mkServer Demo.fresh (Some Board.switched_on)) Board.switched_on
            _ _ _ _ _ _ _)).
  - reflexivity.
  - reflexivity.
  - reflexivity.
  - reflexivity.
  - reflexivity.
  - reflexivity.
  - left. split; reflexivity.
Defined.

(** An event that carries no status is taken as a game in progress. *)
Example event_without_status :
  exists g,
    game_of_event Board.parseInt
      (Some (mkEvent (Some "Super Bowl LIX") None
               (Some [Some (mkCompetition None
                              (Some [Some Board.chiefs; Some Board.eagles]))])))
    = returns g
    /\ at_boundary (game_statusName g) (game_completed g) = false.
Proof. eexists. split; reflexivity. Qed.


(** ** Resending the messages of a result *)


Lemma reset_row_absent (i : nat) (rows : list QuarterResult.row) :
  nth_error rows i = None -> reset_row i rows = rows.
Proof.
  revert rows. induction i as [|i IH]; intros [|x t]; cbn; try discriminate;
    try reflexivity.
  intros H. now rewrite (IH t H).
Qed.

Lemma reset_row_nth_error (i : nat) (rows : list QuarterResult.row)
    (r : QuarterResult.row) :
  nth_error rows i = Some r ->
  nth_error (reset_row i rows) i = Some (set_flags false false 0 r).
Proof.
  revert rows. induction i as [|i IH]; intros [|x t]; cbn; try discriminate.
  - now intros [= ->].
  - apply IH.
Qed.

Section Reset.

Variables (w : World) (i : nat) (r : QuarterResult.row) (c q : string).
Hypothesis Hnth : nth_error (quarter_results w) i = Some r.
Hypothesis Hkey : key_matches c q r = true.



End Reset.



Lemma attempts_log (k : EmailKind) (entry : LogEntry) :
  attempts k [InsertLog entry] = 0%nat.
Proof. reflexivity. Qed.

(** X30. [resendQuarterEmails] answers 'resent' whenever the edge function
    answers without an error, whether or not a message went out. Between two
    boundaries of the game the forced run it triggers processes nothing: the
    action then answers 'resent', no message is handed to the transport, and
    the flags and sent-at times of the result stay cleared. *)
Theorem resend_between_boundaries_sends_nothing
    (aenv : ActionEnv) (vars : EnvVars) (oracle : string -> string -> Env)
    (goracle : string -> GameEnv) (contests_fetch : Fetch (list ContestRow.t))
    (at_ : Z) (espn : EspnScores) (sv : Server) (cfg : Config)
    (resultId : nat) (r : QuarterResult.row) :
  signed_in aenv = true ->
  update_accepted aenv = true ->
  function_answers aenv = true ->
  JS.truthy (NEXT_PUBLIC_SUPABASE_URL aenv) = true ->
  JS.truthy (SERVICE_ROLE_KEY aenv) = true ->
  is_empty (missing_vars vars) = true ->
  config sv = Some cfg ->
  at_boundary (statusName espn) (completed espn) = false ->
  nth_error (quarter_results (store sv)) resultId = Some r ->
  let out :=
    resendQuarterEmails aenv
      (serve vars (espn_found espn) oracle goracle contests_fetch at_)
      resultId sv in
  fst out = inr "resent"
  /\ (forall k, attempts k (new_effects (store sv) (store (snd out))) = 0%nat)
  /\ nth_error (quarter_results (store (snd out))) resultId
     = Some (set_flags false false 0 r)
  /\ QuarterResult.winner_email_sent
       (QuarterResult.columns (set_flags false false 0 r)) = false
  /\ QuarterResult.owner_email_sent
       (QuarterResult.columns (set_flags false false 0 r)) = false.
Proof.
  intros Hs Hu Hf Hurl Hkey Hv Hc Hb Hn out. subst out.
  unfold resendQuarterEmails, triggerScoreCheck.
  rewrite Hs, Hu, Hf, Hurl, Hkey. cbn [negb orb].
  rewrite (serve_idle vars oracle goracle contests_fetch at_
             (mkRequest "POST" (Some (mkBody None true)))
             (mkServer (reset_email_flags resultId (store sv)) (config sv))
             cfg espn).
  - cbn [fst snd store response_ok http_status negb andb Z.leb Z.compare
         response_status JS.or_else].
    split; [reflexivity|]. split.
    + intros k.
      rewrite (new_effects_app (store sv) _
                 [InsertLog (mkLog "check_scores" "success" None None None)]);
        reflexivity.
    + split; [|split; reflexivity].
      cbn [insert_log reset_email_flags quarter_results].
      now apply reset_row_nth_error.
  - unfold admitted. now rewrite Hv.
  - exact Hc.
  - reflexivity.
  - exact Hb.
  - right. reflexivity.
Qed.

Lemma resend_between_boundaries_sends_nothing_witness :
  fst (resendQuarterEmails Board.admin (Board.edge Board.second_quarter) 0
         (mkServer Demo.done (Some Board.switched_on)))
  = inr "resent".
Proof.
  exact (proj1
    (resend_between_boundaries_sends_nothing Board.admin Board.vars Demo.oracle
       Demo.goracle Board.contests 1000 Board.second_quarter
       (mkServer Demo.done (Some Board.switched_on)) Board.switched_on 0
       (Demo.stored true true)
       eq_refl eq_refl eq_refl eq_refl eq_refl eq_refl eq_refl eq_refl eq_refl)).
Defined.

(** At a boundary the forced run sends the messages of the pair again. *)
Example resend_at_the_boundary :
  let out :=
    resendQuarterEmails Board.admin (Board.edge Board.first_quarter_ended) 0
      (mkServer Demo.done (Some Board.switched_on)) in
  fst out = inr "resent"
  /\ deliveries WinnerNotification
       (new_effects Demo.done (store (snd out))) = 1%nat
  /\ deliveries OwnerQuarter
       (new_effects Demo.done (store (snd out))) = 1%nat.
Proof. repeat split. Qed.
